(** * openpifpaf/network/trainer.py: the training-loop controller

    A shallow embedding of [Trainer] (src/openpifpaf/network/trainer.py).

    Conventions of the embedding.
    - Python ints are [Z]; [%] and [/] raise [ZeroDivisionError] on a zero
      divisor, as in Python.
    - Float values (losses, lambdas, parameter entries) are rationals [Q],
      as every float is one.  The sums and products of [loss] and of the
      epoch summaries are those of [Q], without rounding.  The arithmetic of
      [step_ema] belongs to Python and torch and is kept abstract
      ([float_sub], [tensor_mul_], [tensor_add_]): it is exact in the
      instance [toy] and rounds to single precision in [toy_float32].
      Every tensor operation the trainer itself performs ([mul_], [add_],
      [copy_]) is elementwise, so a parameter tensor is followed through one
      entry.
    - [copy.deepcopy] and [copy_] copy values; the embedding has value
      semantics for [self.ema] and [self.ema_restore_params], which the source
      never aliases with the live parameters.
    - The model, the loss functors, the optimizer, the scheduler and [round]
      are the collaborators of the class: they are kept abstract
      ([Collaborators]).  A call on a collaborator returns: a run in which
      the model, a loss, the optimizer, the scheduler, [torch.save] or the
      logger raises is not among the runs of the embedding, and nothing
      below speaks of one.
    - A method is a function from the trainer's mutable fields to an
      [outcome]: the fields afterwards, the calls made on the collaborators
      (a list of [event]s, in program order) and the returned value or the
      raised exception.  An exception keeps the mutations and the events that
      came before it. *)

From Stdlib Require Import ZArith QArith Qround Qabs String Ascii Bool Lia Lqa.
From Stdlib Require Import DecimalString DecimalN List.
Import ListNotations.

Set Implicit Arguments.

(** ** Python values and builtins *)

Inductive assertion : Set :=
| losses_eq_outputs        (* assert len(self.losses) == len(outputs) *)
| lambdas_eq_head_losses.  (* assert len(self.lambdas) == len(head_losses) *)

Inductive exn : Set :=
| AssertionError (a : assertion)
| ZeroDivisionError
| TypeError
| IndexError.

Definition result (A : Type) : Type := (exn + A)%type.

Definition py_mod (a b : Z) : result Z :=
  if (b =? 0)%Z then inl ZeroDivisionError else inr (a mod b)%Z.

Definition py_truediv (x : Q) (n : Z) : result Q :=
  if (n =? 0)%Z then inl ZeroDivisionError else inr (x / inject_Z n)%Q.

(** [sum(vs)]: starts from 0 and adds from the left. *)
Definition py_sum (vs : list Q) : Q := fold_left Qplus vs 0%Q.

(** Truth value of [self.ema_decay]: [None] and [0.0] are false. *)
Definition truthy (d : option Q) : bool :=
  match d with
  | None => false
  | Some q => negb (Qeq_bool q 0)
  end.

Definition zip {A B} (l : list A) (l' : list B) : list (A * B) := combine l l'.

Definition zip3 {A B C} (l1 : list A) (l2 : list B) (l3 : list C)
  : list (A * B * C) := combine (combine l1 l2) l3.

(** [range(a, b)] *)
Definition py_range (a b : Z) : list Z :=
  map (fun i => (a + Z.of_nat i)%Z) (seq 0 (Z.to_nat (b - a))).

Fixpoint zeros (n : nat) : string :=
  match n with
  | O => EmptyString
  | S n' => String "0" (zeros n')
  end.

Definition decimal (n : Z) : string :=
  NilZero.string_of_uint (N.to_uint (Z.to_N (Z.abs n))).

(** ['{:03d}'.format(n)]: sign first, then zeros up to width 3. *)
Definition format_03d (n : Z) : string :=
  let sign := if (n <? 0)%Z then "-"%string else ""%string in
  let ds := decimal n in
  (sign ++ zeros (3 - String.length sign - String.length ds) ++ ds)%string.

(** ** Collaborators *)

Class Collaborators : Type := {
  data : Type;
  target : Type;      (* the target group of one head *)
  meta : Type;
  output : Type;      (* the output of one head *)
  optimizer : Type;   (* optimizer with the gradient buffers and the rates *)
  (* self.model(data), on the current parameter values *)
  model_forward : list Q -> data -> list output;
  (* loss.backward(): adds this batch's gradients to the buffers *)
  loss_backward : list Q -> data -> list target -> optimizer -> optimizer;
  (* self.optimizer.step() *)
  optimizer_step : optimizer -> list Q -> optimizer * list Q;
  (* self.optimizer.zero_grad() *)
  optimizer_zero_grad : optimizer -> optimizer;
  (* self.lr_scheduler.step() *)
  lr_scheduler_step : optimizer -> optimizer;
  (* param_group['lr'] of the first group, None without groups *)
  optimizer_lr : optimizer -> option Q;
  (* round(x, ndigits) *)
  round : Q -> Z -> Q;
  (* x - y on two Python floats *)
  float_sub : Q -> Q -> Q;
  (* one entry of t.mul_(value): t * value, in the arithmetic of the tensor *)
  tensor_mul_ : Q -> Q -> Q;
  (* one entry of t.add_(value, other): t + value * other, likewise *)
  tensor_add_ : Q -> Q -> Q -> Q
}.

(** ** Events *)

Inductive log_record : Type :=
| LogTrain (epoch batch n_batches : Z) (lr loss : option Q)
           (head_losses : list (option Q))
| LogTrainEpoch (epoch : Z) (loss : Q) (head_losses : list Q)
| LogValEpoch (epoch : Z) (loss : Q) (head_losses : list Q).

Inductive event : Type :=
| EvModelTrain                       (* self.model.train() *)
| EvModelEval                        (* self.model.eval() *)
| EvFixBatchNorm                     (* the loop over self.model.modules() *)
| EvPrintEpoch (epoch : Z)           (* print('epoch', epoch) *)
| EvInfo (msg : string)              (* self.log.info(str) *)
| EvDebug (msg : string)             (* self.log.debug(str) *)
| EvLog (r : log_record)             (* self.log.info(dict) *)
| EvSchedulerStep                    (* self.lr_scheduler.step() *)
| EvZeroGrad                         (* self.optimizer.zero_grad() *)
| EvBatchBegin (batch_idx : Z)       (* an iteration of the loop of train starts *)
| EvBatchEnd (batch_idx : Z)         (* last_batch_end = time.time() *)
| EvVisualizer                       (* self.encoder_visualizer(...) *)
| EvForward                          (* self.model(data) *)
| EvBackward                         (* loss.backward() *)
| EvOptimizerStep                    (* self.optimizer.step() *)
| EvStepEma                          (* self.step_ema() *)
| EvModelCpu                         (* self.model.cpu() *)
| EvSave (filename : string) (epoch : Z) (model : list Q)  (* torch.save *)
| EvModelToDevice.                   (* self.model.to(self.device) *)

Section Trainer.

Context {C : Collaborators}.

(** ** The trainer *)

(** The attributes set once by [__init__]. *)
Record config : Type := {
  losses : list (output -> target -> list (option Q));
  lambdas : list Q;
  out : string;
  has_lr_scheduler : bool;     (* self.lr_scheduler is not None *)
  log_interval : Z;
  fix_batch_norm : bool;
  stride_apply : Z;
  ema_decay : option Q;
  encoder_visualizer : bool;   (* truth value of self.encoder_visualizer *)
  data_parallel : bool         (* isinstance(self.model, DataParallel) *)
}.

(** The attributes that change, with the state of the model and of the
    optimizer. *)
Record trainer : Type := {
  params : list Q;                        (* [p.data for p in model.parameters()] *)
  optim : optimizer;
  ema : option (list Q);                  (* self.ema *)
  ema_restore_params : option (list Q)    (* self.ema_restore_params *)
}.

(** [__init__]: both EMA attributes start as [None]. *)
Definition init (ps : list Q) (o : optimizer) : trainer :=
  {| params := ps; optim := o; ema := None; ema_restore_params := None |}.

Record outcome (A : Type) : Type := {
  final : trainer;
  emitted : list event;
  value : result A
}.

Definition M (A : Type) : Type := trainer -> outcome A.

Definition ret {A} (a : A) : M A :=
  fun st => {| final := st; emitted := []; value := inr a |}.

Definition bind {A B} (m : M A) (f : A -> M B) : M B :=
  fun st =>
    let o := m st in
    match value o with
    | inl e => {| final := final o; emitted := emitted o; value := inl e |}
    | inr a =>
        let o' := f a (final o) in
        {| final := final o'; emitted := emitted o ++ emitted o';
           value := value o' |}
    end.

Definition emit (e : event) : M unit :=
  fun st => {| final := st; emitted := [e]; value := inr tt |}.

Definition get : M trainer :=
  fun st => {| final := st; emitted := []; value := inr st |}.

Definition put (st' : trainer) : M unit :=
  fun _ => {| final := st'; emitted := []; value := inr tt |}.

Definition lift {A} (r : result A) : M A :=
  fun st => {| final := st; emitted := []; value := r |}.

Definition when (b : bool) (m : M unit) : M unit := if b then m else ret tt.

End Trainer.

Declare Scope trainer_scope.
Delimit Scope trainer_scope with trainer.
Notation "x <- m ;; k" := (bind m (fun x => k))
  (at level 61, m at next level, right associativity) : trainer_scope.
Notation "' p <- m ;; k" := (bind m (fun x => match x with p => k end))
  (at level 61, p pattern, m at next level, right associativity) : trainer_scope.
Notation "m ;; k" := (bind m (fun _ => k))
  (at level 61, right associativity) : trainer_scope.

Section Methods.

Context {C : Collaborators}.
Variable cfg : config.

Local Open Scope trainer_scope.

Definition set_params (ps : list Q) : M unit :=
  st <- get ;;
  put {| params := ps; optim := optim st; ema := ema st;
         ema_restore_params := ema_restore_params st |}.

Definition set_optim (o : optimizer) : M unit :=
  st <- get ;;
  put {| params := params st; optim := o; ema := ema st;
         ema_restore_params := ema_restore_params st |}.

Definition with_ema (st : trainer) (e : option (list Q)) : trainer :=
  {| params := params st; optim := optim st; ema := e;
     ema_restore_params := ema_restore_params st |}.

Definition set_ema (e : option (list Q)) : M unit :=
  st <- get ;;
  put (with_ema st e).

Definition set_ema_restore_params (r : option (list Q)) : M unit :=
  st <- get ;;
  put {| params := params st; optim := optim st; ema := ema st;
         ema_restore_params := r |}.

(** *** EMA *)

(** [ema_p.mul_(1.0 - self.ema_decay).add_(self.ema_decay, p.data)] *)
Definition ema_update (decay p ema_p : Q) : Q :=
  tensor_add_ (tensor_mul_ ema_p (float_sub 1 decay)) decay p.

(** [for p, ema_p in zip(self.model.parameters(), self.ema): ...] updates the
    shadow entries that have a partner and leaves the others. *)
Fixpoint ema_updates (decay : Q) (ps es : list Q) : list Q :=
  match ps, es with
  | p :: ps', e :: es' => ema_update decay p e :: ema_updates decay ps' es'
  | _, _ => es
  end.

(** [for p, src in zip(self.model.parameters(), srcs): p.data.copy_(src)] *)
Fixpoint copy_into (ps srcs : list Q) : list Q :=
  match ps, srcs with
  | _ :: ps', s :: srcs' => s :: copy_into ps' srcs'
  | _, _ => ps
  end.

Definition step_ema : M unit :=
  st <- get ;;
  match ema st with
  | None => ret tt
  | Some es =>
      match zip (params st) es with
      | [] => ret tt
      | _ :: _ =>
          match ema_decay cfg with
          | None => lift (inl TypeError)     (* 1.0 - None *)
          | Some d => set_ema (Some (ema_updates d (params st) es))
          end
      end
  end.

Definition apply_ema : M unit :=
  st <- get ;;
  match ema st with
  | None => ret tt
  | Some es =>
      emit (EvInfo "applying ema") ;;
      set_ema_restore_params (Some (params st)) ;;
      set_params (copy_into (params st) es)
  end.

Definition ema_restore : M unit :=
  st <- get ;;
  match ema_restore_params st with
  | None => ret tt
  | Some rs =>
      emit (EvInfo "restoring params from before ema") ;;
      set_params (copy_into (params st) rs) ;;
      set_ema_restore_params None
  end.

(** *** loss *)

Definition head_losses_of (outputs : list output) (targets : list target)
  : list (option Q) :=
  flat_map (fun lot => match lot with (l, o, t) => l o t end)
           (zip3 (losses cfg) outputs targets).

(** [[lam * l for lam, l in zip(self.lambdas, head_losses) if l is not None]] *)
Definition loss_values (lams : list Q) (head_losses : list (option Q)) : list Q :=
  flat_map (fun ll => match ll with
                      | (lam, Some l) => [(lam * l)%Q]
                      | (_, None) => []
                      end)
           (zip lams head_losses).

Definition loss (outputs : list output) (targets : list target)
  : result (option Q * list (option Q)) :=
  if negb (length (losses cfg) =? length outputs)%nat
  then inl (AssertionError losses_eq_outputs)
  else
    let head_losses := head_losses_of outputs targets in
    if negb (length (lambdas cfg) =? length head_losses)%nat
    then inl (AssertionError lambdas_eq_head_losses)
    else
      let vs := loss_values (lambdas cfg) head_losses in
      inr (match vs with
           | [] => None
           | _ :: _ => Some (py_sum vs)
           end, head_losses).

(** *** Batches *)

Definition do_backward (d : data) (targets : list target) : M unit :=
  st <- get ;;
  emit EvBackward ;;
  set_optim (loss_backward (params st) d targets (optim st)).

Definition do_optimizer_step : M unit :=
  st <- get ;;
  emit EvOptimizerStep ;;
  let r := optimizer_step (optim st) (params st) in
  set_optim (fst r) ;;
  set_params (snd r).

Definition do_zero_grad : M unit :=
  st <- get ;;
  emit EvZeroGrad ;;
  set_optim (optimizer_zero_grad (optim st)).

Definition do_scheduler_step : M unit :=
  st <- get ;;
  emit EvSchedulerStep ;;
  set_optim (lr_scheduler_step (optim st)).

(** The transfers to [self.device] leave the values as they are. *)
Definition train_batch (d : data) (targets : list target) (m : meta)
           (apply_gradients : bool) : M (option Q * list (option Q)) :=
  when (encoder_visualizer cfg) (emit EvVisualizer) ;;
  st <- get ;;
  emit EvForward ;;
  let outputs := model_forward (params st) d in
  r <- lift (loss outputs targets) ;;
  match fst r with
  | Some _ => do_backward d targets
  | None => ret tt
  end ;;
  when apply_gradients
       (do_optimizer_step ;; do_zero_grad ;; emit EvStepEma ;; step_ema) ;;
  ret r.

Definition val_batch (d : data) (targets : list target)
  : M (option Q * list (option Q)) :=
  st <- get ;;
  emit EvForward ;;
  let outputs := model_forward (params st) d in
  r <- lift (loss outputs targets) ;;
  ret r.

(** *** Epochs *)

(** [for i, head_loss in enumerate(head_losses): ...
       head_epoch_losses[i] += head_loss], skipping the [None] entries. *)
Fixpoint add_head_losses (sums : list Q) (head_losses : list (option Q))
  : result (list Q) :=
  match head_losses with
  | [] => inr sums
  | hl :: rest =>
      match hl, sums with
      | None, [] => add_head_losses [] rest
      | None, s :: sums' =>
          match add_head_losses sums' rest with
          | inl e => inl e
          | inr r => inr (s :: r)
          end
      | Some _, [] => inl IndexError
      | Some v, s :: sums' =>
          match add_head_losses sums' rest with
          | inl e => inl e
          | inr r => inr ((s + v)%Q :: r)
          end
      end
  end.

Definition add_loss (epoch_loss : Q) (l : option Q) : Q :=
  match l with
  | Some v => (epoch_loss + v)%Q
  | None => epoch_loss
  end.

Definition option_round (ndigits : Z) (l : option Q) : option Q :=
  match l with
  | Some v => Some (round v ndigits)
  | None => None
  end.

Definition batch := (data * list target * meta)%type.

(** The running sums of an epoch: [epoch_loss] and [head_epoch_losses]. *)
Definition sums := (Q * list Q)%type.

Definition initial_sums : sums := (0%Q, map (fun _ => 0%Q) (lambdas cfg)).

(** The body of the loop of [train], lines 179 to 209. *)
Definition train_iteration (n_batches : Z) (epoch : Z) (batch_idx : Z)
           (b : batch) (acc : sums) : M sums :=
  match b with
  | (d, tgt, mt) =>
      emit (EvBatchBegin batch_idx) ;;
      r <- lift (py_mod batch_idx (stride_apply cfg)) ;;
      let apply_gradients := (r =? 0)%Z in
      lh <- train_batch d tgt mt apply_gradients ;;
      let epoch_loss := add_loss (fst acc) (fst lh) in
      head_epoch_losses <- lift (add_head_losses (snd acc) (snd lh)) ;;
      r' <- lift (py_mod batch_idx (log_interval cfg)) ;;
      (if (r' =? 0)%Z
       then
         st <- get ;;
         emit (EvLog (LogTrain epoch batch_idx n_batches
                               (optimizer_lr (optim st))
                               (option_round 3 (fst lh))
                               (map (option_round 3) (snd lh))))
       else ret tt) ;;
      st <- get ;;
      match ema st with
      | None => when (truthy (ema_decay cfg)) (set_ema (Some (params st)))
      | Some _ => ret tt
      end ;;
      emit (EvBatchEnd batch_idx) ;;
      ret (epoch_loss, head_epoch_losses)
  end.

(** [for batch_idx, (data, target, meta) in enumerate(scenes)], from
    [batch_idx] on. *)
Fixpoint train_batches (n_batches : Z) (epoch : Z) (batch_idx : Z)
         (scenes : list batch) (acc : sums) : M sums :=
  match scenes with
  | [] => ret acc
  | b :: rest =>
      acc' <- train_iteration n_batches epoch batch_idx b acc ;;
      train_batches n_batches epoch (batch_idx + 1) rest acc'
  end.

Fixpoint truediv_all (ls : list Q) (n : Z) : result (list Q) :=
  match ls with
  | [] => inr []
  | l :: rest =>
      match py_truediv l n with
      | inl e => inl e
      | inr q =>
          match truediv_all rest n with
          | inl e => inl e
          | inr qs => inr (round q 5 :: qs)
          end
      end
  end.

(** Lines 151 to 177: what [train] does before the loop. *)
Definition train_begin (epoch : Z) : M unit :=
  emit EvModelTrain ;;
  when (fix_batch_norm cfg) (emit EvFixBatchNorm) ;;
  ema_restore ;;
  set_ema None ;;
  emit (EvPrintEpoch epoch) ;;
  when (has_lr_scheduler cfg) do_scheduler_step ;;
  do_zero_grad.

(** Lines 211 to 218: what [train] does after the loop. *)
Definition train_end (n_batches : Z) (epoch : Z) (acc : sums) : M unit :=
  apply_ema ;;
  l <- lift (py_truediv (fst acc) n_batches) ;;
  hs <- lift (truediv_all (snd acc) n_batches) ;;
  emit (EvLog (LogTrainEpoch (epoch + 1) (round l 5) hs)).

Definition train (scenes : list batch) (epoch : Z) : M unit :=
  let n_batches := Z.of_nat (length scenes) in
  train_begin epoch ;;
  acc <- train_batches n_batches epoch 0 scenes initial_sums ;;
  train_end n_batches epoch acc.

Definition val_iteration (b : batch) (acc : sums) : M sums :=
  match b with
  | (d, tgt, _) =>
      lh <- val_batch d tgt ;;
      let epoch_loss := add_loss (fst acc) (fst lh) in
      head_epoch_losses <- lift (add_head_losses (snd acc) (snd lh)) ;;
      ret (epoch_loss, head_epoch_losses)
  end.

Fixpoint val_batches (scenes : list batch) (acc : sums) : M sums :=
  match scenes with
  | [] => ret acc
  | b :: rest =>
      acc' <- val_iteration b acc ;;
      val_batches rest acc'
  end.

Definition val (scenes : list batch) (epoch : Z) : M unit :=
  let n_batches := Z.of_nat (length scenes) in
  emit EvModelEval ;;
  acc <- val_batches scenes initial_sums ;;
  l <- lift (py_truediv (fst acc) n_batches) ;;
  hs <- lift (truediv_all (snd acc) n_batches) ;;
  emit (EvLog (LogValEpoch epoch (round l 5) hs)).

(** *** Checkpoints *)

Definition checkpoint_filename (epoch : Z) (final : bool) : string :=
  if final then out cfg
  else (out cfg ++ ".epoch" ++ format_03d epoch)%string.

Definition write_model (epoch : Z) (final : bool) : M unit :=
  emit EvModelCpu ;;
  emit (EvDebug (if data_parallel cfg
                 then "Writing a dataparallel model."
                 else "Writing a single-thread model.")) ;;
  let filename := checkpoint_filename epoch final in
  emit (EvDebug "about to write model") ;;
  st <- get ;;
  emit (EvSave filename epoch (params st)) ;;
  emit (EvDebug "model written") ;;
  emit EvModelToDevice.

(** *** The run *)

Fixpoint repeat_m (n : nat) (m : M unit) : M unit :=
  match n with
  | O => ret tt
  | S n' => m ;; repeat_m n' m
  end.

Fixpoint for_each {A} (l : list A) (body : A -> M unit) : M unit :=
  match l with
  | [] => ret tt
  | a :: rest => body a ;; for_each rest body
  end.

Definition loop (train_scenes val_scenes : list batch)
           (epochs start_epoch : Z) : M unit :=
  repeat_m (Z.to_nat start_epoch)
           (when (has_lr_scheduler cfg) do_scheduler_step) ;;
  for_each (py_range start_epoch epochs)
           (fun epoch =>
              train train_scenes epoch ;;
              write_model (epoch + 1) (epoch =? epochs - 1)%Z ;;
              val val_scenes (epoch + 1)).

End Methods.

(** ** The states a trainer goes through

    A trainer starts from [__init__]; then its methods are called, in any
    order and also after one of them raised, and between the calls the model
    and the optimizer may be changed from outside.  [self.ema] and
    [self.ema_restore_params] are written by the methods only. *)

Section Reachable.

Context {C : Collaborators}.
Variable cfg : config.

Inductive reachable : trainer -> Prop :=
| reach_init ps o : reachable (init ps o)
| reach_outside st ps o :
    reachable st ->
    reachable {| params := ps; optim := o; ema := ema st;
                 ema_restore_params := ema_restore_params st |}
| reach_step_ema st :
    reachable st -> reachable (final (step_ema cfg st))
| reach_apply_ema st :
    reachable st -> reachable (final (apply_ema st))
| reach_ema_restore st :
    reachable st -> reachable (final (ema_restore st))
| reach_train_batch st d tgt mt ag :
    reachable st -> reachable (final (train_batch cfg d tgt mt ag st))
| reach_val_batch st d tgt :
    reachable st -> reachable (final (val_batch cfg d tgt st))
| reach_train st scenes epoch :
    reachable st -> reachable (final (train cfg scenes epoch st))
| reach_val st scenes epoch :
    reachable st -> reachable (final (val cfg scenes epoch st))
| reach_write_model st epoch fin :
    reachable st -> reachable (final (write_model cfg epoch fin st))
| reach_loop st train_scenes val_scenes epochs start_epoch :
    reachable st ->
    reachable (final (loop cfg train_scenes val_scenes epochs start_epoch st)).

End Reachable.

(** A restore buffer is pending only while a shadow is set. *)
Definition ema_consistent {C : Collaborators} (st : trainer) : Prop :=
  ema st = None -> ema_restore_params st = None.

(** A method keeps a property of the trainer, also when it raises. *)
Definition preserves {C : Collaborators} {A} (P : trainer -> Prop) (m : M A)
  : Prop :=
  forall st, P st -> P (final (m st)).

(** ** Repeated EMA steps on constant parameters *)

(** One shadow entry after [k] calls of [step_ema] with its parameter at [p]. *)
Definition ema_entry_after {C : Collaborators} (k : nat) (decay p e : Q) : Q :=
  Nat.iter k (ema_update decay p) e.

(** The shadow after [k] calls of [step_ema] with the parameters at [ps]. *)
Definition ema_after {C : Collaborators} (k : nat) (decay : Q)
           (ps es : list Q) : list Q :=
  Nat.iter k (ema_updates decay ps) es.

(** Entry [i] of the shadow, when there is one. *)
Definition shadow_entry {C : Collaborators} (st : trainer) (i : nat)
  : option Q :=
  match ema st with
  | Some es => nth_error es i
  | None => None
  end.

(** ** The arithmetic of the EMA *)

(** The subtraction of [1.0 - self.ema_decay] and the two tensor operations
    give the number they stand for, without rounding it. *)
Definition exact_arithmetic (C : Collaborators) : Prop :=
  (forall x y, float_sub x y == x - y)
  /\ (forall t v, tensor_mul_ t v == t * v)
  /\ (forall t v o, tensor_add_ t v o == t + v * o).

(** ** Observations on the events of a run *)

Definition is_optimizer_step (e : event) : bool :=
  match e with EvOptimizerStep => true | _ => false end.

Definition is_zero_grad (e : event) : bool :=
  match e with EvZeroGrad => true | _ => false end.

Definition is_step_ema (e : event) : bool :=
  match e with EvStepEma => true | _ => false end.

Definition is_backward (e : event) : bool :=
  match e with EvBackward => true | _ => false end.

Definition is_scheduler_step (e : event) : bool :=
  match e with EvSchedulerStep => true | _ => false end.

Definition is_batch_begin (e : event) : bool :=
  match e with EvBatchBegin _ => true | _ => false end.

Definition is_epoch_summary (e : event) : bool :=
  match e with
  | EvLog (LogTrainEpoch _ _ _) | EvLog (LogValEpoch _ _ _) => true
  | _ => false
  end.

Definition count (p : event -> bool) (tr : list event) : nat :=
  length (filter p tr).

(** What follows the start of batch [i]. *)
Fixpoint after_begin (i : Z) (tr : list event) : list event :=
  match tr with
  | [] => []
  | EvBatchBegin j :: tr' => if (j =? i)%Z then tr' else after_begin i tr'
  | _ :: tr' => after_begin i tr'
  end.

(** Up to the end of the batch that is running. *)
Fixpoint until_end (tr : list event) : list event :=
  match tr with
  | [] => []
  | EvBatchEnd _ :: _ => []
  | e :: tr' => e :: until_end tr'
  end.

(** The events of batch [i]. *)
Definition batch_events (i : Z) (tr : list event) : list event :=
  until_end (after_begin i tr).

(** The events before the first batch of the run starts. *)
Fixpoint before_first_batch (tr : list event) : list event :=
  match tr with
  | [] => []
  | EvBatchBegin _ :: _ => []
  | e :: tr' => e :: before_first_batch tr'
  end.

(** The checkpoints of a run. *)
Fixpoint saved_paths (tr : list event) : list string :=
  match tr with
  | [] => []
  | EvSave f _ _ :: tr' => f :: saved_paths tr'
  | _ :: tr' => saved_paths tr'
  end.

(** ** The shape of the events of the loop of [train] *)

Definition is_batch_end (e : event) : bool :=
  match e with EvBatchEnd _ => true | _ => false end.

Definition is_marker (e : event) : bool :=
  is_batch_begin e || is_batch_end e.

Definition fires (b : bool) : nat := if b then 1 else 0.

(** The events of a batch with index [i] under the stride [k]: no iteration
    starts or ends among them, and the optimizer step, the zeroing of the
    gradients and the EMA step are there once or not at all. *)
Definition batch_body_ok (k i : Z) (body : list event) : Prop :=
  existsb is_marker body = false
  /\ count is_optimizer_step body = fires (i mod k =? 0)%Z
  /\ count is_zero_grad body = fires (i mod k =? 0)%Z
  /\ count is_step_ema body = fires (i mod k =? 0)%Z.

(** The events of [n] iterations in a row, from batch [i] on. *)
Inductive loop_trace (k : Z) : Z -> nat -> list event -> Prop :=
| loop_trace_done i : loop_trace k i 0 []
| loop_trace_batch i n body rest :
    batch_body_ok k i body ->
    loop_trace k (i + 1) n rest ->
    loop_trace k i (S n) (EvBatchBegin i :: body ++ EvBatchEnd i :: rest).

(** ** What a method may call and what it may raise *)

(** Every event of the method passes [p]. *)
Definition emits_only {C : Collaborators} {A} (p : event -> bool) (m : M A)
  : Prop :=
  forall st, forallb p (emitted (m st)) = true.

(** From a state in [I] the method ends in [I], and an exception it raises is
    in [E]. *)
Definition safe {C : Collaborators} {A} (I : trainer -> Prop) (E : exn -> Prop)
           (m : M A) : Prop :=
  forall st, I st ->
             I (final (m st))
             /\ match value (m st) with
                | inl e => E e
                | inr _ => True
                end.

(** The calls of a validation. *)
Definition is_val_event (e : event) : bool :=
  match e with
  | EvModelEval | EvForward | EvLog (LogValEpoch _ _ _) => true
  | _ => false
  end.

(** Everything but a checkpoint. *)
Definition is_not_save (e : event) : bool :=
  match e with
  | EvSave _ _ _ => false
  | _ => true
  end.

(** A shadow is only ever set under a decay that counts as true. *)
Definition shadow_has_decay {C : Collaborators} (cfg : config) (st : trainer)
  : Prop :=
  ema st <> None -> truthy (ema_decay cfg) = true.

(** ** One epoch of [loop] *)

(** The body of the second loop of [loop], lines 91 to 94. *)
Definition epoch_body {C : Collaborators} (cfg : config)
           (train_scenes val_scenes : list batch) (epochs epoch : Z) : M unit :=
  bind (train cfg train_scenes epoch)
       (fun _ =>
          bind (write_model cfg (epoch + 1) (epoch =? epochs - 1)%Z)
               (fun _ => val cfg val_scenes (epoch + 1))).

(** The file of the checkpoint that [loop] writes after the epoch. *)
Definition epoch_checkpoint {C : Collaborators} (cfg : config)
           (epochs epoch : Z) : string :=
  checkpoint_filename cfg (epoch + 1) (epoch =? epochs - 1)%Z.

(** The model is as in [st0]: parameters, shadow and restore buffer. *)
Definition same_model {C : Collaborators} (st0 st : trainer) : Prop :=
  params st = params st0
  /\ ema st = ema st0
  /\ ema_restore_params st = ema_restore_params st0.

(** ** Reading an epoch back from its suffix *)

Definition read_digits (s : string) : option Z :=
  match NilEmpty.uint_of_string s with
  | Some u => Some (Z.of_N (N.of_uint u))
  | None => None
  end.

(** The number that a text written by [format_03d] stands for. *)
Definition read_epoch (s : string) : option Z :=
  match s with
  | String c r =>
      if Ascii.eqb c "-" then option_map Z.opp (read_digits r)
      else read_digits s
  | EmptyString => None
  end.

(** ** The total loss of a batch on given parameters *)

Definition batch_total {C : Collaborators} (cfg : config) (ps : list Q)
           (b : batch) : option Q :=
  match b with
  | (d, tgt, _) =>
      match loss cfg (model_forward ps d) tgt with
      | inr r => fst r
      | inl _ => None
      end
  end.

(** ** The states and the events at the end of a run *)

(** The shadow is swapped into the model and the parameters of the training
    wait in the restore buffer. *)
Definition swapped_in {C : Collaborators} (st : trainer) : Prop :=
  exists es ps,
    ema st = Some es
    /\ ema_restore_params st = Some ps
    /\ params st = copy_into ps es.

(** Everything but a step of the scheduler. *)
Definition is_not_scheduler_step (e : event) : bool :=
  negb (is_scheduler_step e).

(** ** The calls of one batch, in order *)

(** What an iteration of [train] calls between its two marks when
    [train_batch] returns the losses [lh] and the rate of the optimizer is
    [lr]. *)
Definition batch_call_list {C : Collaborators} (cfg : config)
           (n_batches epoch i : Z) (lh : option Q * list (option Q))
           (lr : option Q) : list event :=
  (if encoder_visualizer cfg then [EvVisualizer] else [])
    ++ EvForward
    :: (match fst lh with Some _ => [EvBackward] | None => [] end)
    ++ (if (i mod stride_apply cfg =? 0)%Z
        then [EvOptimizerStep; EvZeroGrad; EvStepEma] else [])
    ++ (if (i mod log_interval cfg =? 0)%Z
        then [EvLog (LogTrain epoch i n_batches lr
                              (option_round 3 (fst lh))
                              (map (option_round 3) (snd lh)))]
        else []).

(** The events of [n] iterations in a row from batch [i] on, each batch with
    calls that satisfy [P]. *)
Inductive batches_trace (P : Z -> list event -> Prop)
  : Z -> nat -> list event -> Prop :=
| batches_trace_done i : batches_trace P i 0 []
| batches_trace_batch i n body rest :
    existsb is_marker body = false ->
    P i body ->
    batches_trace P (i + 1) n rest ->
    batches_trace P i (S n) (EvBatchBegin i :: body ++ EvBatchEnd i :: rest).

(** The batches from [i] on, [n] of them, that are due for an optimizer
    step under the stride [k]. *)
Fixpoint due_batches (k i : Z) (n : nat) : nat :=
  match n with
  | O => O
  | S n' => (fires (i mod k =? 0)%Z + due_batches k (i + 1) n')%nat
  end.

(** ** The sum of a combined loss, by index

    The total of the specification: the sum over the positions [i] of
    [head_losses] that are not null of [lambdas[i] * head_losses[i]]. *)

Definition weighted_term (lams : list Q) (head_losses : list (option Q))
           (i : nat) : Q :=
  match nth i head_losses None with
  | Some v => (nth i lams 0 * v)%Q
  | None => 0%Q
  end.

Definition weighted_sum (lams : list Q) (head_losses : list (option Q)) : Q :=
  fold_right Qplus 0%Q
             (map (weighted_term lams head_losses) (seq 0 (length head_losses))).

Definition all_null (head_losses : list (option Q)) : Prop :=
  Forall (fun l => l = None) head_losses.

(** ** A small instance

    One head; the gradient buffer is one number, each backward pass adds 1 to
    it and the optimizer subtracts it from every parameter. *)

#[local] Instance toy : Collaborators := {|
  data := unit;
  target := unit;
  meta := unit;
  output := unit;
  optimizer := Q;
  model_forward := fun _ _ => [tt];
  loss_backward := fun _ _ _ g => (g + 1)%Q;
  optimizer_step := fun g ps => (g, map (fun p => (p - g)%Q) ps);
  optimizer_zero_grad := fun _ => 0%Q;
  lr_scheduler_step := fun g => g;
  optimizer_lr := fun _ => Some 1%Q;
  round := fun q _ => q;
  float_sub := Qminus;
  tensor_mul_ := Qmult;
  tensor_add_ := fun t v o => (t + v * o)%Q
|}.

Definition toy_config : config := {|
  losses := [fun _ _ => [Some 2%Q; Some 3%Q]];
  lambdas := [(1 # 2)%Q; 1%Q];
  out := "model.pkl";
  has_lr_scheduler := true;
  log_interval := 10;
  fix_batch_norm := false;
  stride_apply := 2;
  ema_decay := Some (1 # 10)%Q;
  encoder_visualizer := false;
  data_parallel := false
|}.

Definition toy_batch : batch := (tt, [tt], tt).

Definition toy_trainer : trainer := init [1%Q; 5%Q] 0%Q.

Definition toy_scenes : list batch := [toy_batch; toy_batch; toy_batch].

(** After one epoch: the shadow is swapped in and the restore buffer holds
    the parameters of the training. *)
Definition toy_after_epoch : trainer :=
  final (train toy_config toy_scenes 0 toy_trainer).

Definition toy_with_shadow : trainer := with_ema toy_trainer (Some [0%Q; 0%Q]).

(** A head whose sub-losses are both null. *)
Definition toy_null_config : config := {|
  losses := [fun _ _ => [None; None]];
  lambdas := [(1 # 2)%Q; 1%Q];
  out := "model.pkl";
  has_lr_scheduler := true;
  log_interval := 10;
  fix_batch_norm := false;
  stride_apply := 2;
  ema_decay := Some (1 # 10)%Q;
  encoder_visualizer := false;
  data_parallel := false
|}.

(** ** The small instance in single precision

    The parameter tensors are in float32 and the Python floats in float64.
    [mul_] and [add_] take their scalar in the type of the tensor and round
    each product and each sum to it; the rest is as in the instance above. *)

(** [floor(log2 q)] for a positive [q]. *)
Definition Qlog2 (q : Q) : Z :=
  let e := (Z.log2 (Qnum q) - Z.log2 (Zpos (Qden q)))%Z in
  if Qle_bool (2 ^ e) q then e else (e - 1)%Z.

(** The nearest number with [prec] significant bits, a tie going to the even
    significand.  The exponent is not bounded: the numbers below are far
    from the ends of the range. *)
Definition round_to_bits (prec : Z) (q : Q) : Q :=
  if Qeq_bool q 0 then 0
  else
    let a := Qabs q in
    let ulp := 2 ^ (Qlog2 a - prec + 1) in
    let x := a / ulp in
    let n := Qfloor x in
    let m := match (x - inject_Z n) ?= (1 # 2) with
             | Lt => n
             | Gt => (n + 1)%Z
             | Eq => if Z.even n then n else (n + 1)%Z
             end in
    Qred ((if Qle_bool 0 q then 1 else -1) * inject_Z m * ulp).

Definition float32 : Q -> Q := round_to_bits 24.

Definition float64 : Q -> Q := round_to_bits 53.

Definition toy_float32 : Collaborators := {|
  data := unit;
  target := unit;
  meta := unit;
  output := unit;
  optimizer := Q;
  model_forward := fun _ _ => [tt];
  loss_backward := fun _ _ _ g => (g + 1)%Q;
  optimizer_step := fun g ps => (g, map (fun p => (p - g)%Q) ps);
  optimizer_zero_grad := fun _ => 0%Q;
  lr_scheduler_step := fun g => g;
  optimizer_lr := fun _ => Some 1%Q;
  round := fun q _ => q;
  float_sub := fun x y => float64 (x - y);
  tensor_mul_ := fun t v => float32 (t * float32 v);
  tensor_add_ := fun t v o => float32 (t + float32 (float32 v * o))
|}.

(** The float [0.1]. *)
Definition tenth : Q := 3602879701896397 # 36028797018963968.

Definition float32_config : @config toy_float32 := {|
  losses := [fun _ _ => [Some 2%Q; Some 3%Q]];
  lambdas := [(1 # 2)%Q; 1%Q];
  out := "model.pkl";
  has_lr_scheduler := true;
  log_interval := 10;
  fix_batch_norm := false;
  stride_apply := 2;
  ema_decay := Some tenth;
  encoder_visualizer := false;
  data_parallel := false
|}.

(** The parameters 1 and 3 with the shadow at 0 and 3. *)
Definition float32_with_shadow : @trainer toy_float32 :=
  @with_ema toy_float32 (@init toy_float32 [1%Q; 3%Q] 0%Q)
            (Some [0%Q; 3%Q]).

(** * Properties *)

(** ** Sums of rationals *)

Lemma fold_left_Qplus_acc (vs : list Q) (a : Q) :
  fold_left Qplus vs a == a + fold_right Qplus 0 vs.
Proof.
  revert a; induction vs as [|v vs IH]; intro a; simpl.
  - ring.
  - rewrite IH. ring.
Qed.

Lemma py_sum_fold_right (vs : list Q) :
  py_sum vs == fold_right Qplus 0 vs.
Proof.
  unfold py_sum. rewrite fold_left_Qplus_acc. ring.
Qed.

Lemma weighted_sum_cons (lams : list Q) (h : option Q) (hl : list (option Q)) :
  weighted_sum lams (h :: hl)
  = (weighted_term lams (h :: hl) 0 + weighted_sum (tl lams) hl)%Q.
Proof.
  unfold weighted_sum. cbn [length seq map fold_right].
  f_equal. f_equal.
  rewrite <- seq_shift, map_map.
  apply map_ext. intro i.
  unfold weighted_term. cbn [nth].
  destruct lams as [|lam lams]; cbn [tl nth]; [|reflexivity].
  destruct i; reflexivity.
Qed.

Section LossFacts.

Context {C : Collaborators}.
Variable cfg : config.

Lemma loss_values_sum (lams : list Q) (hl : list (option Q)) :
  length lams = length hl ->
  fold_right Qplus 0 (loss_values lams hl) == weighted_sum lams hl.
Proof.
  revert lams; induction hl as [|h hl IH]; intros [|lam lams] Hlen;
    try discriminate Hlen.
  - reflexivity.
  - injection Hlen as Hlen.
    rewrite weighted_sum_cons. cbn [tl].
    unfold weighted_term. cbn [nth].
    destruct h as [v|]; unfold loss_values, zip in *; cbn [combine flat_map app fold_right].
    + rewrite (IH lams Hlen). reflexivity.
    + rewrite (IH lams Hlen). ring.
Qed.

Lemma loss_values_nil_iff (lams : list Q) (hl : list (option Q)) :
  length lams = length hl ->
  loss_values lams hl = [] <-> all_null hl.
Proof.
  unfold all_null.
  revert lams; induction hl as [|h hl IH]; intros [|lam lams] Hlen;
    try discriminate Hlen.
  - split; [constructor | reflexivity].
  - injection Hlen as Hlen.
    unfold loss_values, zip in *. cbn [combine flat_map].
    destruct h as [v|]; cbn [app].
    + split; [discriminate | intro H; inversion H; discriminate].
    + rewrite (IH lams Hlen).
      split; [intro H; constructor; [reflexivity | exact H]
             | intro H; inversion H; assumption].
Qed.

(** The two assertions of [loss], one at a time. *)

Lemma loss_heads_mismatch outputs targets :
  length (losses cfg) <> length outputs ->
  loss cfg outputs targets = inl (AssertionError losses_eq_outputs).
Proof.
  intro H. unfold loss.
  apply Nat.eqb_neq in H. rewrite H. reflexivity.
Qed.

Lemma loss_lambdas_mismatch outputs targets :
  length (losses cfg) = length outputs ->
  length (head_losses_of cfg outputs targets) <> length (lambdas cfg) ->
  loss cfg outputs targets = inl (AssertionError lambdas_eq_head_losses).
Proof.
  intros H1 H2. unfold loss.
  apply Nat.eqb_eq in H1. rewrite H1. cbn [negb].
  assert (H3 : (length (lambdas cfg) =? length (head_losses_of cfg outputs targets))%nat = false)
    by (apply Nat.eqb_neq; congruence).
  rewrite H3. reflexivity.
Qed.

Lemma loss_returns outputs targets :
  length (losses cfg) = length outputs ->
  length (head_losses_of cfg outputs targets) = length (lambdas cfg) ->
  loss cfg outputs targets
  = inr (match loss_values (lambdas cfg) (head_losses_of cfg outputs targets) with
         | [] => None
         | vs => Some (py_sum vs)
         end, head_losses_of cfg outputs targets).
Proof.
  intros H1 H2. unfold loss.
  apply Nat.eqb_eq in H1. rewrite H1. cbn [negb].
  symmetry in H2. apply Nat.eqb_eq in H2. rewrite H2. cbn [negb].
  destruct (loss_values _ _); reflexivity.
Qed.

(** With as many targets as outputs and heads, every head contributes: the
    flattened list is the concatenation of what the heads return. *)
Lemma head_losses_of_all_heads (outputs : list output) (targets : list target) :
  length (losses cfg) = length outputs ->
  length targets = length outputs ->
  head_losses_of cfg outputs targets
  = concat (map (fun lot => match lot with (l, o, t) => l o t end)
                (zip3 (losses cfg) outputs targets))
  /\ length (zip3 (losses cfg) outputs targets) = length (losses cfg).
Proof.
  intros H1 H2. split.
  - unfold head_losses_of. apply flat_map_concat_map.
  - unfold zip3. rewrite !length_combine. lia.
Qed.

End LossFacts.

(** ** The combined loss *)

Section LossClaims.

Context {C : Collaborators}.
Variable cfg : config.

(** C2. With one output per head, [loss] raises exactly when the number of
    flattened sub-losses differs from [len(self.lambdas)], and what it raises
    then is the assertion on the lambdas, which stands before the total is
    computed: no total and no sub-loss list is returned. *)
Theorem loss_fails_iff_count_mismatch
        (outputs : list output) (targets : list target) :
  length (losses cfg) = length outputs ->
  ((exists e, loss cfg outputs targets = inl e)
   <-> length (head_losses_of cfg outputs targets) <> length (lambdas cfg))
  /\ (length (head_losses_of cfg outputs targets) <> length (lambdas cfg) ->
      loss cfg outputs targets = inl (AssertionError lambdas_eq_head_losses)).
Proof.
  intro Hheads. split; [split|].
  - intros [e He] Hlen.
    rewrite (loss_returns cfg outputs targets Hheads Hlen) in He.
    discriminate He.
  - intro Hlen. eexists.
    apply (loss_lambdas_mismatch cfg outputs targets Hheads Hlen).
  - apply (loss_lambdas_mismatch cfg outputs targets Hheads).
Qed.

(** C6, as the code has it. A number of outputs that differs from the number
    of heads fails at once, on the first assertion.  The number of target
    groups is not compared with anything: [zip] pairs the heads with the
    targets that are there, so the targets beyond the last output are ignored,
    and the call fails only when the sub-losses of the paired heads are not as
    many as the lambdas. *)
Theorem loss_count_checks (outputs : list output) (targets : list target) :
  (length (losses cfg) <> length outputs ->
   loss cfg outputs targets = inl (AssertionError losses_eq_outputs))
  /\ (length (losses cfg) = length outputs ->
      loss cfg outputs targets
      = loss cfg outputs (firstn (length outputs) targets)
      /\ ((exists e, loss cfg outputs targets = inl e)
          <-> length (head_losses_of cfg outputs targets)
              <> length (lambdas cfg))).
Proof.
  split.
  - apply loss_heads_mismatch.
  - intro Hheads. split.
    + assert (Hz : head_losses_of cfg outputs (firstn (length outputs) targets)
                   = head_losses_of cfg outputs targets).
      { unfold head_losses_of, zip3.
        rewrite (combine_firstn_l (combine (losses cfg) outputs) targets).
        rewrite length_combine, Hheads, Nat.min_id. reflexivity. }
      unfold loss. rewrite Hz. reflexivity.
    + split.
      * intros [e He] Hlen.
        rewrite (loss_returns cfg outputs targets Hheads Hlen) in He.
        discriminate He.
      * intro Hlen. eexists.
        apply (loss_lambdas_mismatch cfg outputs targets Hheads Hlen).
Qed.

End LossClaims.


(** ** Properties kept by the methods *)

Section Preservation.

Context {C : Collaborators}.
Variable P : trainer -> Prop.

Lemma preserves_ret A (a : A) : preserves P (ret a).
Proof. intros st H. exact H. Qed.

Lemma preserves_emit e : preserves P (emit e).
Proof. intros st H. exact H. Qed.

Lemma preserves_lift A (r : result A) : preserves P (lift r).
Proof. intros st H. exact H. Qed.

Lemma preserves_get : preserves P get.
Proof. intros st H. exact H. Qed.

Lemma preserves_bind A B (m : M A) (f : A -> M B) :
  preserves P m -> (forall a, preserves P (f a)) -> preserves P (bind m f).
Proof.
  intros Hm Hf st H. unfold bind.
  destruct (value (m st)) as [e|a]; cbn [final].
  - apply Hm, H.
  - apply Hf, Hm, H.
Qed.

(** As [preserves_bind], for a continuation that reads the state first. *)
Lemma preserves_get_bind B (f : trainer -> M B) :
  (forall st, P st -> P (final (f st st))) -> preserves P (bind get f).
Proof.
  intros Hf st H. unfold bind, get. cbn. apply Hf, H.
Qed.

Lemma preserves_when b (m : M unit) : preserves P m -> preserves P (when b m).
Proof.
  intro Hm. destruct b; [exact Hm | apply preserves_ret].
Qed.

Lemma preserves_repeat_m n (m : M unit) :
  preserves P m -> preserves P (repeat_m n m).
Proof.
  intro Hm. induction n as [|n IH]; cbn [repeat_m].
  - apply preserves_ret.
  - apply preserves_bind; [exact Hm | intros _; exact IH].
Qed.

Lemma preserves_for_each A (l : list A) (body : A -> M unit) :
  (forall a, preserves P (body a)) -> preserves P (for_each l body).
Proof.
  intro Hb. induction l as [|a l IH]; cbn [for_each].
  - apply preserves_ret.
  - apply preserves_bind; [apply Hb | intros _; exact IH].
Qed.

End Preservation.

(** Walks through the binds of a method; [leaf] closes the calls. *)
Ltac preserve_with leaf :=
  repeat first
    [ leaf
    | match goal with
      | |- preserves _ (bind _ _) => apply preserves_bind; [|intro]
      | |- preserves _ (when _ _) => apply preserves_when
      | |- preserves _ (ret _) => apply preserves_ret
      | |- preserves _ (emit _) => apply preserves_emit
      | |- preserves _ (lift _) => apply preserves_lift
      | |- preserves _ get => apply preserves_get
      | |- preserves _ (repeat_m _ _) => apply preserves_repeat_m
      | |- preserves _ (for_each _ _) => apply preserves_for_each; intro
      | |- preserves _ (match ?x with _ => _ end) => destruct x
      end ].

(** ** Copies between parameter lists *)

Lemma copy_into_length (ps srcs : list Q) :
  length (copy_into ps srcs) = length ps.
Proof.
  revert srcs; induction ps as [|p ps IH]; intros [|s srcs]; cbn; auto.
Qed.

Lemma copy_into_same_length (qs ps : list Q) :
  length qs = length ps -> copy_into qs ps = ps.
Proof.
  revert ps; induction qs as [|q qs IH]; intros [|p ps] H; cbn in *;
    try discriminate; auto.
  f_equal. apply IH. lia.
Qed.

Lemma copy_into_back (ps es : list Q) :
  copy_into (copy_into ps es) ps = ps.
Proof.
  apply copy_into_same_length, copy_into_length.
Qed.

(** ** The EMA swap *)

Section EmaSwap.

Context {C : Collaborators}.
Variable cfg : config.

Lemma step_ema_consistent : preserves ema_consistent (step_ema cfg).
Proof.
  intros [ps o e r] H. unfold ema_consistent in *. cbn in *.
  destruct e as [es|]; cbn; [|exact H].
  destruct (combine ps es); cbn; [exact H|].
  destruct (ema_decay cfg); cbn; [discriminate | exact H].
Qed.

Lemma apply_ema_consistent : preserves ema_consistent apply_ema.
Proof.
  intros [ps o e r] H. unfold ema_consistent in *. cbn in *.
  destruct e as [es|]; cbn; [discriminate | exact H].
Qed.

Lemma ema_restore_consistent : preserves ema_consistent ema_restore.
Proof.
  intros [ps o e r] H. unfold ema_consistent in *. cbn in *.
  destruct r as [rs|]; cbn; [reflexivity | exact H].
Qed.

Lemma set_params_consistent ps : preserves ema_consistent (set_params ps).
Proof. intros [ps' o e r] H. exact H. Qed.

Lemma set_optim_consistent o : preserves ema_consistent (set_optim o).
Proof. intros [ps o' e r] H. exact H. Qed.

Lemma do_backward_consistent d tgt :
  preserves ema_consistent (do_backward d tgt).
Proof. intros [ps o e r] H. exact H. Qed.

Lemma do_optimizer_step_consistent : preserves ema_consistent do_optimizer_step.
Proof. intros [ps o e r] H. exact H. Qed.

Lemma do_zero_grad_consistent : preserves ema_consistent do_zero_grad.
Proof. intros [ps o e r] H. exact H. Qed.

Lemma do_scheduler_step_consistent :
  preserves ema_consistent do_scheduler_step.
Proof. intros [ps o e r] H. exact H. Qed.

Lemma set_ema_some_consistent es : preserves ema_consistent (set_ema (Some es)).
Proof. intros [ps o e r] H. unfold ema_consistent. cbn. discriminate. Qed.

Ltac consistent_leaf :=
  idtac;
  lazymatch goal with
  | |- preserves _ (step_ema _) => apply step_ema_consistent
  | |- preserves _ apply_ema => apply apply_ema_consistent
  | |- preserves _ ema_restore => apply ema_restore_consistent
  | |- preserves _ (set_ema (Some _)) => apply set_ema_some_consistent
  | |- preserves _ (do_backward _ _) => apply do_backward_consistent
  | |- preserves _ do_optimizer_step => apply do_optimizer_step_consistent
  | |- preserves _ do_zero_grad => apply do_zero_grad_consistent
  | |- preserves _ do_scheduler_step => apply do_scheduler_step_consistent
  end.

Lemma train_batch_consistent d tgt mt ag :
  preserves ema_consistent (train_batch cfg d tgt mt ag).
Proof.
  unfold train_batch. preserve_with consistent_leaf.
Qed.

Lemma val_batch_consistent d tgt :
  preserves ema_consistent (val_batch cfg d tgt).
Proof.
  unfold val_batch. preserve_with consistent_leaf.
Qed.

Lemma train_iteration_consistent n epoch i b acc :
  preserves ema_consistent (train_iteration cfg n epoch i b acc).
Proof.
  unfold train_iteration.
  preserve_with ltac:(first [ lazymatch goal with
                              | |- preserves _ (train_batch _ _ _ _ _) =>
                                  apply train_batch_consistent
                              end
                            | consistent_leaf ]).
Qed.

Lemma train_batches_consistent n epoch scenes : forall i acc,
  preserves ema_consistent (train_batches cfg n epoch i scenes acc).
Proof.
  induction scenes as [|b rest IH]; intros i acc; cbn [train_batches].
  - apply preserves_ret.
  - apply preserves_bind; [apply train_iteration_consistent | intro; apply IH].
Qed.

(** What [train] has done when its loop starts: a pending swap is undone and
    the shadow is unset; nothing raises on the way. *)
Lemma train_begin_final epoch st :
  final (train_begin cfg epoch st)
  = {| params := match ema_restore_params st with
                 | Some rs => copy_into (params st) rs
                 | None => params st
                 end;
       optim := optimizer_zero_grad
                  (if has_lr_scheduler cfg
                   then lr_scheduler_step (optim st) else optim st);
       ema := None;
       ema_restore_params := None |}
  /\ value (train_begin cfg epoch st) = inr tt.
Proof.
  destruct st as [ps o e r]. unfold train_begin.
  destruct r; destruct (fix_batch_norm cfg); destruct (has_lr_scheduler cfg);
    split; reflexivity.
Qed.

Lemma train_end_consistent n epoch acc :
  preserves ema_consistent (train_end n epoch acc).
Proof.
  unfold train_end. preserve_with consistent_leaf.
Qed.

Lemma train_consistent scenes epoch st :
  ema_consistent (final (train cfg scenes epoch st)).
Proof.
  unfold train.
  destruct (train_begin_final epoch st) as [Hf Hv].
  unfold bind at 1. rewrite Hv. cbn [final].
  apply preserves_bind.
  - apply train_batches_consistent.
  - intro. apply train_end_consistent.
  - rewrite Hf. unfold ema_consistent. reflexivity.
Qed.

Lemma val_consistent scenes epoch : preserves ema_consistent (val cfg scenes epoch).
Proof.
  unfold val.
  assert (Hb : forall acc, preserves ema_consistent (val_batches cfg scenes acc)).
  { induction scenes as [|b rest IH]; intro acc; cbn [val_batches].
    - apply preserves_ret.
    - apply preserves_bind; [|intro; apply IH].
      unfold val_iteration.
      preserve_with ltac:(first [ lazymatch goal with
                                  | |- preserves _ (val_batch _ _ _) =>
                                      apply val_batch_consistent
                                  end
                                | consistent_leaf ]). }
  preserve_with ltac:(first [ lazymatch goal with
                              | |- preserves _ (val_batches _ _ _) => apply Hb
                              end
                            | consistent_leaf ]).
Qed.

Lemma write_model_consistent epoch fin :
  preserves ema_consistent (write_model cfg epoch fin).
Proof.
  unfold write_model. preserve_with consistent_leaf.
Qed.

Lemma loop_consistent train_scenes val_scenes epochs start_epoch :
  preserves ema_consistent (loop cfg train_scenes val_scenes epochs start_epoch).
Proof.
  unfold loop.
  preserve_with ltac:(first [ lazymatch goal with
                              | |- preserves _ (val _ _ _) =>
                                  apply val_consistent
                              | |- preserves _ (write_model _ _ _) =>
                                  apply write_model_consistent
                              | |- preserves _ (train _ _ _) =>
                                  intros ? _; apply train_consistent
                              end
                            | consistent_leaf ]).
Qed.

(** Every state of a trainer is consistent. *)
Lemma reachable_ema_consistent st : reachable cfg st -> ema_consistent st.
Proof.
  induction 1.
  - unfold ema_consistent. reflexivity.
  - exact IHreachable.
  - apply step_ema_consistent, IHreachable.
  - apply apply_ema_consistent, IHreachable.
  - apply ema_restore_consistent, IHreachable.
  - apply train_batch_consistent, IHreachable.
  - apply val_batch_consistent, IHreachable.
  - apply train_consistent.
  - apply val_consistent, IHreachable.
  - apply write_model_consistent, IHreachable.
  - apply loop_consistent, IHreachable.
Qed.

(** C1. In every state a trainer can be in, [apply_ema()] followed at once by
    [ema_restore()] raises nothing, leaves every parameter with the value it
    had before and the restore buffer cleared, and does not touch the shadow
    or the optimizer; with the shadow unset, neither call changes anything. *)
Theorem apply_ema_then_restore_is_identity st :
  reachable cfg st ->
  let o := bind apply_ema (fun _ => ema_restore) st in
  value o = inr tt
  /\ params (final o) = params st
  /\ ema_restore_params (final o) = None
  /\ ema (final o) = ema st
  /\ optim (final o) = optim st
  /\ (ema st = None ->
      final (apply_ema st) = st /\ final (ema_restore (final (apply_ema st))) = st).
Proof.
  intro Hreach. apply reachable_ema_consistent in Hreach.
  destruct st as [ps o e r]. unfold ema_consistent in Hreach. cbn in Hreach.
  destruct e as [es|].
  - cbn. rewrite copy_into_back. repeat split; try reflexivity; discriminate.
  - rewrite (Hreach eq_refl). cbn. repeat split; reflexivity.
Qed.

End EmaSwap.

(** ** The EMA recurrence *)

Section EmaArithmetic.

Context {C : Collaborators}.

Lemma ema_updates_length (d : Q) (ps es : list Q) :
  length (ema_updates d ps es) = length es.
Proof.
  revert es; induction ps as [|p ps IH]; intros [|e es]; cbn; auto.
Qed.

Lemma ema_updates_unpaired (d : Q) (ps es : list Q) :
  combine ps es = [] -> ema_updates d ps es = es.
Proof.
  destruct ps, es; cbn; intro H; try reflexivity; discriminate H.
Qed.

Lemma nth_error_ema_updates (d : Q) (ps es : list Q) (i : nat) (p e : Q) :
  nth_error ps i = Some p ->
  nth_error es i = Some e ->
  nth_error (ema_updates d ps es) i = Some (ema_update d p e).
Proof.
  revert es i; induction ps as [|p0 ps IH]; intros [|e0 es] [|i] Hp He;
    cbn in *; try discriminate.
  - congruence.
  - apply IH; assumption.
Qed.

(** An entry of the shadow beyond the last parameter stays. *)
Lemma nth_error_ema_updates_beyond (d : Q) (ps es : list Q) (i : nat) :
  nth_error ps i = None ->
  nth_error (ema_updates d ps es) i = nth_error es i.
Proof.
  revert es i; induction ps as [|p0 ps IH]; intros [|e0 es] [|i] Hp;
    cbn in *; try reflexivity; try discriminate.
  apply IH; assumption.
Qed.

Lemma nth_error_ema_after (k : nat) (d : Q) (ps es : list Q) (i : nat) (p e : Q) :
  nth_error ps i = Some p ->
  nth_error es i = Some e ->
  nth_error (ema_after k d ps es) i = Some (ema_entry_after k d p e).
Proof.
  intros Hp He. induction k as [|k IH]; cbn.
  - exact He.
  - apply nth_error_ema_updates; assumption.
Qed.

(** Where the subtraction, [mul_] and [add_] do not round. *)
Hypothesis exact : exact_arithmetic C.

Lemma ema_update_exact (d p e : Q) :
  ema_update d p e == e * (1 - d) + d * p.
Proof.
  destruct exact as (Hsub & Hmul & Hadd). unfold ema_update.
  rewrite Hadd, Hmul, Hsub. reflexivity.
Qed.

Lemma ema_update_contracts (d p e : Q) :
  ema_update d p e - p == (1 - d) * (e - p).
Proof. rewrite ema_update_exact. ring. Qed.

Lemma ema_update_from_below (d p e : Q) :
  0 < d -> d < 1 -> e <= p -> e <= ema_update d p e /\ ema_update d p e <= p.
Proof. intros. rewrite ema_update_exact. split; nra. Qed.

Lemma ema_update_from_above (d p e : Q) :
  0 < d -> d < 1 -> p <= e -> p <= ema_update d p e /\ ema_update d p e <= e.
Proof. intros. rewrite ema_update_exact. split; nra. Qed.

End EmaArithmetic.

Section EmaStep.

Context {C : Collaborators}.
Variable cfg : config.

Lemma step_ema_run st es d :
  ema st = Some es ->
  ema_decay cfg = Some d ->
  step_ema cfg st
  = {| final := with_ema st (Some (ema_updates d (params st) es));
       emitted := []; value := inr tt |}.
Proof.
  destruct st as [ps o e r]. cbn. intros -> Hd.
  unfold step_ema, bind, get. cbn. unfold zip.
  destruct (combine ps es) eqn:Hz.
  - rewrite (ema_updates_unpaired d ps es Hz). reflexivity.
  - rewrite Hd. reflexivity.
Qed.

Lemma repeat_step_ema_run k : forall st es d,
  ema st = Some es ->
  ema_decay cfg = Some d ->
  repeat_m k (step_ema cfg) st
  = {| final := with_ema st (Some (ema_after k d (params st) es));
       emitted := []; value := inr tt |}.
Proof.
  induction k as [|k IH]; intros st es d He Hd.
  - destruct st as [ps o e r]. cbn in *. subst e. reflexivity.
  - cbn [repeat_m]. unfold bind.
    rewrite (step_ema_run st He Hd). cbn [value final emitted].
    rewrite (IH (with_ema st (Some (ema_updates d (params st) es)))
                (ema_updates d (params st) es) d eq_refl Hd).
    cbn. unfold with_ema. cbn.
    unfold ema_after. rewrite Nat.iter_swap. reflexivity.
Qed.


End EmaStep.

(** ** Running a bind *)

Section Binds.

Context {C : Collaborators}.

Lemma bind_inr A B (m : M A) (f : A -> M B) st a :
  value (m st) = inr a ->
  bind m f st
  = {| final := final (f a (final (m st)));
       emitted := emitted (m st) ++ emitted (f a (final (m st)));
       value := value (f a (final (m st))) |}.
Proof. intro H. unfold bind. rewrite H. reflexivity. Qed.

Lemma bind_inl A B (m : M A) (f : A -> M B) st e :
  value (m st) = inl e ->
  bind m f st
  = {| final := final (m st); emitted := emitted (m st); value := inl e |}.
Proof. intro H. unfold bind. rewrite H. reflexivity. Qed.

(** A bind that returns has run both of its parts. *)
Lemma bind_returns A B (m : M A) (f : A -> M B) st b :
  value (bind m f st) = inr b ->
  exists a, value (m st) = inr a /\ value (f a (final (m st))) = inr b.
Proof.
  unfold bind. destruct (value (m st)) as [e|a] eqn:Hm; cbn; intro H.
  - discriminate H.
  - exists a. split; [reflexivity | exact H].
Qed.

(** A bind that returns, part by part. *)
Lemma bind_success A B (m : M A) (f : A -> M B) st b :
  value (bind m f st) = inr b ->
  exists a,
    value (m st) = inr a
    /\ value (f a (final (m st))) = inr b
    /\ final (bind m f st) = final (f a (final (m st)))
    /\ emitted (bind m f st) = emitted (m st) ++ emitted (f a (final (m st))).
Proof.
  unfold bind. destruct (value (m st)) as [e|a] eqn:Hm; cbn; intro H.
  - discriminate H.
  - exists a. repeat split; [exact H].
Qed.

Lemma final_emit e st : final (emit e st) = st.
Proof. reflexivity. Qed.

Lemma emitted_emit e st : emitted (emit e st) = [e].
Proof. reflexivity. Qed.

Lemma final_lift A (r : result A) st : final (lift r st) = st.
Proof. reflexivity. Qed.

Lemma emitted_lift A (r : result A) st : emitted (lift r st) = [].
Proof. reflexivity. Qed.

Lemma value_lift A (r : result A) st : value (lift r st) = r.
Proof. reflexivity. Qed.

Lemma final_get st : final (get st) = st.
Proof. reflexivity. Qed.

Lemma emitted_get st : emitted (get st) = [].
Proof. reflexivity. Qed.

Lemma value_get st : value (get st) = inr st.
Proof. reflexivity. Qed.

Lemma final_ret A (a : A) st : final (ret a st) = st.
Proof. reflexivity. Qed.

Lemma emitted_ret A (a : A) st : emitted (ret a st) = [].
Proof. reflexivity. Qed.

Lemma value_ret A (a : A) st : value (ret a st) = inr a.
Proof. reflexivity. Qed.

Lemma final_set_ema e st : final (set_ema e st) = with_ema st e.
Proof. reflexivity. Qed.

Lemma emitted_set_ema e st : emitted (set_ema e st) = [].
Proof. reflexivity. Qed.

End Binds.

Create Rewrite HintDb run.

#[local] Hint Rewrite @final_emit @emitted_emit @final_lift @emitted_lift
  @value_lift @final_get @emitted_get @value_get @final_ret @emitted_ret
  @value_ret @final_set_ema @emitted_set_ema : run.

(** Runs the first part of the bind that [H] says returns. *)
Ltac bind_step H a Ha :=
  let Hf := fresh "Hf" in
  let He := fresh "He" in
  unfold sums in *;
  apply bind_success in H as (a & Ha & H & Hf & He);
  rewrite ?Hf, ?He; clear Hf He;
  cbv beta in H |- *;
  autorewrite with run in H, Ha |- *.

(** ** Checkpoint paths *)

Lemma format_03d_nonneg (n : Z) :
  (0 <= n)%Z ->
  format_03d n
  = (zeros (3 - String.length (decimal n)) ++ decimal n)%string.
Proof.
  intro H. unfold format_03d.
  destruct (n <? 0)%Z eqn:Hn; [apply Z.ltb_lt in Hn; lia|].
  cbn [String.length String.append]. rewrite Nat.sub_0_r. reflexivity.
Qed.

Section Checkpoints.

Context {C : Collaborators}.
Variable cfg : config.

(** C9. [write_model] saves once and raises nothing.  With [final] true the
    file is [self.out], whatever the epoch; otherwise it is [self.out]
    followed by [.epoch] and the epoch formatted by [03d], which for epoch 7
    is [.epoch007]. *)
Theorem write_model_path (st : trainer) (epoch : Z) :
  value (write_model cfg epoch true st) = inr tt
  /\ saved_paths (emitted (write_model cfg epoch true st)) = [out cfg]
  /\ saved_paths (emitted (write_model cfg epoch false st))
     = [(out cfg ++ ".epoch" ++ format_03d epoch)%string]
  /\ saved_paths (emitted (write_model cfg 7 false st))
     = [(out cfg ++ ".epoch007")%string]
  /\ emitted (write_model cfg epoch true st)
     = [EvModelCpu;
        EvDebug (if data_parallel cfg then "Writing a dataparallel model."
                 else "Writing a single-thread model.");
        EvDebug "about to write model";
        EvSave (out cfg) epoch (params st);
        EvDebug "model written";
        EvModelToDevice].
Proof.
  repeat split; reflexivity.
Qed.

End Checkpoints.

(** ** The summary of an epoch *)

Section EpochSummary.

Context {C : Collaborators}.
Variable cfg : config.

Lemma n_batches_nonzero (scenes : list batch) :
  scenes <> [] -> (Z.of_nat (length scenes) =? 0)%Z = false.
Proof.
  intro H. destruct scenes; [contradiction|].
  apply Z.eqb_neq. cbn [length]. lia.
Qed.

Lemma truediv_all_nonzero (ls : list Q) (n : Z) :
  (n =? 0)%Z = false ->
  truediv_all ls n = inr (map (fun l => round (l / inject_Z n) 5) ls).
Proof.
  intro H. induction ls as [|l ls IH]; cbn [truediv_all map].
  - reflexivity.
  - unfold py_truediv. rewrite H, IH. reflexivity.
Qed.

Lemma apply_ema_returns st : value (apply_ema st) = inr tt.
Proof.
  destruct st as [ps o e r]. destruct e; reflexivity.
Qed.

Lemma train_end_returns n epoch acc st :
  (n =? 0)%Z = false ->
  value (train_end n epoch acc st) = inr tt
  /\ emitted (train_end n epoch acc st)
     = emitted (apply_ema st)
       ++ [EvLog (LogTrainEpoch (epoch + 1) (round (fst acc / inject_Z n) 5)
                     (map (fun l => round (l / inject_Z n) 5) (snd acc)))].
Proof.
  intro H. unfold train_end.
  rewrite (bind_inr _ _ _ (apply_ema_returns st)).
  unfold bind, lift, emit, py_truediv. cbn. rewrite H. cbn.
  rewrite truediv_all_nonzero by exact H. cbn. split; reflexivity.
Qed.

(** C10. On a dataset without batches [train] and [val] raise
    [ZeroDivisionError] where the mean of the epoch is computed, and log no
    summary.  On a dataset with batches the divisions by the batch count go
    through: when the loop over the batches has returned, so does the method,
    and it logs the running sums divided by the number of batches. *)
Theorem epoch_summary_needs_batches :
  (forall st epoch,
      value (train cfg [] epoch st) = inl ZeroDivisionError
      /\ existsb is_epoch_summary (emitted (train cfg [] epoch st)) = false)
  /\ (forall st epoch,
         value (val cfg [] epoch st) = inl ZeroDivisionError
         /\ existsb is_epoch_summary (emitted (val cfg [] epoch st)) = false)
  /\ (forall scenes epoch st acc,
         scenes <> [] ->
         let n := Z.of_nat (length scenes) in
         value (train_batches cfg n epoch 0 scenes (initial_sums cfg)
                              (final (train_begin cfg epoch st))) = inr acc ->
         value (train cfg scenes epoch st) = inr tt
         /\ In (EvLog (LogTrainEpoch
                         (epoch + 1) (round (fst acc / inject_Z n) 5)
                         (map (fun l => round (l / inject_Z n) 5) (snd acc))))
               (emitted (train cfg scenes epoch st)))
  /\ (forall scenes epoch st acc,
         scenes <> [] ->
         let n := Z.of_nat (length scenes) in
         value (val_batches cfg scenes (initial_sums cfg) st) = inr acc ->
         value (val cfg scenes epoch st) = inr tt
         /\ In (EvLog (LogValEpoch
                         epoch (round (fst acc / inject_Z n) 5)
                         (map (fun l => round (l / inject_Z n) 5) (snd acc))))
               (emitted (val cfg scenes epoch st))).
Proof.
  split; [|split; [|split]].
  - intros [ps o e r] epoch. unfold train, train_begin.
    destruct r; destruct (fix_batch_norm cfg); destruct (has_lr_scheduler cfg);
      split; reflexivity.
  - intros st epoch. split; reflexivity.
  - intros scenes epoch st acc Hne n Hloop.
    pose proof (n_batches_nonzero Hne) as Hn.
    destruct (train_begin_final cfg epoch st) as [_ Hb].
    unfold train. fold n.
    rewrite (bind_inr _ _ _ Hb). cbn [value emitted final].
    rewrite (bind_inr _ _ _ Hloop). cbn [value emitted final].
    destruct (train_end_returns n epoch acc
                (final (train_batches cfg n epoch 0 scenes (initial_sums cfg)
                                      (final (train_begin cfg epoch st)))) Hn)
      as [Hv He].
    split; [exact Hv|].
    rewrite He. apply in_or_app. right. apply in_or_app. right.
    apply in_or_app. right. left. reflexivity.
  - intros scenes epoch st acc Hne n Hloop.
    pose proof (n_batches_nonzero Hne) as Hn. subst n.
    unfold val, bind, lift, emit, py_truediv. cbn.
    rewrite Hloop. cbn. rewrite Hn. cbn.
    rewrite truediv_all_nonzero by exact Hn. cbn.
    split; [reflexivity|].
    right. apply in_or_app. right. left. reflexivity.
Qed.

End EpochSummary.

(** ** The shadow within an epoch *)

Definition shadow_unset {C : Collaborators} (st : trainer) : Prop :=
  ema st = None.

Definition shadow_set {C : Collaborators} (st : trainer) : Prop :=
  ema st <> None.

Section ShadowInEpoch.

Context {C : Collaborators}.
Variable cfg : config.

Lemma step_ema_unset : preserves shadow_unset (step_ema cfg).
Proof.
  intros [ps o e r] H. unfold shadow_unset in *. cbn in *. subst e.
  reflexivity.
Qed.

Lemma step_ema_set : preserves shadow_set (step_ema cfg).
Proof.
  intros [ps o e r] H. unfold shadow_set in *. cbn in *.
  destruct e as [es|]; cbn; [|exact H].
  destruct (combine ps es); cbn; [exact H|].
  destruct (ema_decay cfg); cbn; [discriminate | exact H].
Qed.

Lemma do_backward_ema d tgt st :
  ema (final (do_backward d tgt st)) = ema st.
Proof. destruct st; reflexivity. Qed.

Lemma do_optimizer_step_ema st :
  ema (final (do_optimizer_step st)) = ema st.
Proof. destruct st; reflexivity. Qed.

Lemma do_zero_grad_ema st : ema (final (do_zero_grad st)) = ema st.
Proof. destruct st; reflexivity. Qed.

Ltac shadow_leaf :=
  idtac;
  lazymatch goal with
  | |- preserves shadow_unset (step_ema _) => apply step_ema_unset
  | |- preserves shadow_set (step_ema _) => apply step_ema_set
  | |- preserves _ (do_backward _ _) =>
      intros ? ?; unfold shadow_unset, shadow_set in *;
      rewrite do_backward_ema; assumption
  | |- preserves _ do_optimizer_step =>
      intros ? ?; unfold shadow_unset, shadow_set in *;
      rewrite do_optimizer_step_ema; assumption
  | |- preserves _ do_zero_grad =>
      intros ? ?; unfold shadow_unset, shadow_set in *;
      rewrite do_zero_grad_ema; assumption
  end.

Lemma train_batch_unset d tgt mt ag :
  preserves shadow_unset (train_batch cfg d tgt mt ag).
Proof.
  unfold train_batch. preserve_with shadow_leaf.
Qed.

Lemma train_batch_set d tgt mt ag :
  preserves shadow_set (train_batch cfg d tgt mt ag).
Proof.
  unfold train_batch. preserve_with shadow_leaf.
Qed.

Lemma set_ema_some_set es : preserves shadow_set (set_ema (Some es)).
Proof. intros st _. unfold shadow_set. cbn. discriminate. Qed.

Lemma train_iteration_set n epoch i b acc :
  preserves shadow_set (train_iteration cfg n epoch i b acc).
Proof.
  unfold train_iteration.
  preserve_with ltac:(idtac;
                      lazymatch goal with
                      | |- preserves _ (train_batch _ _ _ _ _) =>
                          apply train_batch_set
                      | |- preserves _ (set_ema (Some _)) =>
                          apply set_ema_some_set
                      end).
Qed.

(** The first iteration of an epoch, when it returns: the shadow becomes a
    copy of the parameters that [train_batch] left. *)
Lemma train_iteration_seeds n epoch d tgt mt acc st acc' :
  ema st = None ->
  truthy (ema_decay cfg) = true ->
  value (train_iteration cfg n epoch 0 (d, tgt, mt) acc st) = inr acc' ->
  final (train_iteration cfg n epoch 0 (d, tgt, mt) acc st)
  = with_ema (final (train_batch cfg d tgt mt true st))
             (Some (params (final (train_batch cfg d tgt mt true st)))).
Proof.
  intros He Ht Hv.
  pose proof (train_batch_unset d tgt mt true (st:=st) He) as Hu.
  unfold shadow_unset in Hu.
  unfold train_iteration in Hv |- *.
  bind_step Hv u Hu0.
  bind_step Hv r Hr.
  assert (r = 0%Z) as ->.
  { unfold py_mod in Hr. destruct (stride_apply cfg =? 0)%Z eqn:Hk;
      [discriminate Hr|].
    injection Hr as <-. apply Z.mod_0_l, Z.eqb_neq, Hk. }
  change (0 =? 0)%Z with true in Hv |- *.
  bind_step Hv lh Hlh.
  bind_step Hv hs Hhs.
  bind_step Hv r' Hr'.
  bind_step Hv u1 Hu1.
  assert (Hlog : forall s (m : M unit),
             (forall s', final (m s') = s') ->
             final ((if (r' =? 0)%Z then m else ret tt) s) = s).
  { intros s m Hm. destruct (r' =? 0)%Z; [apply Hm | reflexivity]. }
  rewrite Hlog in Hv |- * by reflexivity.
  bind_step Hv s Hs. injection Hs as <-.
  bind_step Hv u2 Hu2.
  rewrite Hu in Hv |- *. rewrite Ht in Hv |- *.
  unfold when. autorewrite with run. reflexivity.
Qed.

(** C8. With a decay configured, an epoch of [train] is: the preamble, the
    first iteration, the other iterations, the end.  The preamble raises
    nothing, copies a pending restore buffer back into the parameters and
    leaves the shadow and the buffer unset.  The shadow is still unset when
    the [train_batch] of the first batch is over, and when the first iteration
    returns the shadow is a copy of the parameters as that batch left them.
    From then on it stays set. *)
Theorem ema_seeded_after_first_batch st epoch d tgt mt rest :
  truthy (ema_decay cfg) = true ->
  let scenes := (d, tgt, mt) :: rest in
  let n := Z.of_nat (length scenes) in
  let st0 := final (train_begin cfg epoch st) in
  train cfg scenes epoch st
  = bind (train_begin cfg epoch)
         (fun _ =>
            bind (bind (train_iteration cfg n epoch 0 (d, tgt, mt)
                                        (initial_sums cfg))
                       (fun acc => train_batches cfg n epoch 1 rest acc))
                 (fun acc => train_end n epoch acc)) st
  /\ value (train_begin cfg epoch st) = inr tt
  /\ ema st0 = None
  /\ ema_restore_params st0 = None
  /\ params st0 = match ema_restore_params st with
                  | Some rs => copy_into (params st) rs
                  | None => params st
                  end
  /\ (forall ag, ema (final (train_batch cfg d tgt mt ag st0)) = None)
  /\ (forall acc',
         value (train_iteration cfg n epoch 0 (d, tgt, mt)
                                (initial_sums cfg) st0) = inr acc' ->
         let st1 := final (train_iteration cfg n epoch 0 (d, tgt, mt)
                                           (initial_sums cfg) st0) in
         ema st1 = Some (params st1)
         /\ params st1 = params (final (train_batch cfg d tgt mt true st0)))
  /\ (forall st' i b acc,
         ema st' <> None ->
         ema (final (train_iteration cfg n epoch i b acc st')) <> None).
Proof.
  intros Ht scenes n st0.
  destruct (train_begin_final cfg epoch st) as [Hf Hv].
  assert (He0 : ema st0 = None) by (unfold st0; rewrite Hf; reflexivity).
  split; [reflexivity|].
  split; [exact Hv|].
  split; [exact He0|].
  split; [unfold st0; rewrite Hf; reflexivity|].
  split; [unfold st0; rewrite Hf; reflexivity|].
  split; [intro ag; apply (train_batch_unset d tgt mt ag (st:=st0) He0)|].
  split.
  - intros acc' Hacc. cbn zeta.
    erewrite train_iteration_seeds;
      [split; reflexivity | exact He0 | exact Ht | exact Hacc].
  - intros st' i b acc. apply train_iteration_set.
Qed.

End ShadowInEpoch.

(** ** Gradient accumulation *)

Section StrideApply.

Context {C : Collaborators}.
Variable cfg : config.

Lemma step_ema_silent st : emitted (step_ema cfg st) = [].
Proof.
  destruct st as [ps o e r]. unfold step_ema, bind, get. cbn.
  destruct e as [es|]; cbn; [|reflexivity].
  destruct (combine ps es); cbn; [reflexivity|].
  destruct (ema_decay cfg); reflexivity.
Qed.

Lemma emitted_do_backward d tgt st : emitted (do_backward d tgt st) = [EvBackward].
Proof. reflexivity. Qed.

Lemma emitted_do_optimizer_step st :
  emitted (do_optimizer_step st) = [EvOptimizerStep].
Proof. reflexivity. Qed.

Lemma emitted_do_zero_grad st : emitted (do_zero_grad st) = [EvZeroGrad].
Proof. reflexivity. Qed.

Lemma emitted_do_scheduler_step st :
  emitted (do_scheduler_step st) = [EvSchedulerStep].
Proof. reflexivity. Qed.

Lemma emitted_when_emit b e st :
  emitted (when b (emit e) st) = if b then [e] else [].
Proof. destruct b; reflexivity. Qed.

(** What a [train_batch] that returns has called, in order. *)
Lemma train_batch_trace d tgt mt ag st r :
  value (train_batch cfg d tgt mt ag st) = inr r ->
  emitted (train_batch cfg d tgt mt ag st)
  = (if encoder_visualizer cfg then [EvVisualizer] else [])
      ++ EvForward
      :: (match fst r with Some _ => [EvBackward] | None => [] end)
      ++ (if ag then [EvOptimizerStep; EvZeroGrad; EvStepEma] else []).
Proof.
  intro Hv. unfold train_batch in Hv |- *.
  bind_step Hv u0 H0.
  bind_step Hv s Hs.
  bind_step Hv u1 H1.
  bind_step Hv r0 Hr0.
  bind_step Hv u2 H2.
  bind_step Hv u3 H3.
  injection Hv as <-.
  rewrite emitted_when_emit.
  set (s1 := final (when (encoder_visualizer cfg) (emit EvVisualizer) st)) in *.
  set (s2 := final (match fst r0 with
                    | Some _ => do_backward d tgt
                    | None => ret tt
                    end s1)) in *.
  assert (Hb : emitted (match fst r0 with
                        | Some _ => do_backward d tgt
                        | None => ret tt
                        end s1)
               = match fst r0 with Some _ => [EvBackward] | None => [] end)
    by (destruct (fst r0); reflexivity).
  rewrite Hb. clear Hb.
  destruct ag; unfold when in H3 |- *.
  - bind_step H3 v1 K1.
    bind_step H3 v2 K2.
    bind_step H3 v3 K3.
    rewrite emitted_do_optimizer_step, emitted_do_zero_grad, step_ema_silent.
    cbn [app]. rewrite ?app_nil_r. reflexivity.
  - autorewrite with run. cbn [app]. rewrite ?app_nil_r. reflexivity.
Qed.

(** What an iteration that returns has called: the events of its batch
    between the two marks. *)
Lemma train_iteration_trace n epoch i b acc st acc' :
  value (train_iteration cfg n epoch i b acc st) = inr acc' ->
  exists body,
    emitted (train_iteration cfg n epoch i b acc st)
    = EvBatchBegin i :: body ++ [EvBatchEnd i]
    /\ batch_body_ok (stride_apply cfg) i body.
Proof.
  destruct b as [[d tgt] mt]. intro Hv.
  unfold train_iteration in Hv |- *.
  bind_step Hv u0 H0.
  bind_step Hv r Hr.
  assert (r = (i mod stride_apply cfg)%Z) as ->.
  { unfold py_mod in Hr. destruct (stride_apply cfg =? 0)%Z;
      [discriminate Hr | injection Hr as <-; reflexivity]. }
  bind_step Hv lh Hlh.
  bind_step Hv hs Hhs.
  bind_step Hv r' Hr'.
  bind_step Hv u1 H1.
  bind_step Hv s Hs.
  bind_step Hv u2 H2.
  bind_step Hv u3 H3.
  rewrite (train_batch_trace _ _ _ _ _ Hlh).
  set (s1 := final (train_batch cfg d tgt mt
                                (i mod stride_apply cfg =? 0)%Z st)) in *.
  set (lg := EvLog (LogTrain epoch i n (optimizer_lr (optim s1))
                             (option_round 3 (fst lh))
                             (map (option_round 3) (snd lh)))).
  assert (Hlog : emitted ((if (r' =? 0)%Z
                           then bind get (fun st0 =>
                                  emit (EvLog (LogTrain epoch i n
                                                 (optimizer_lr (optim st0))
                                                 (option_round 3 (fst lh))
                                                 (map (option_round 3) (snd lh)))))
                           else ret tt) s1)
                 = if (r' =? 0)%Z then [lg] else []).
  { destruct (r' =? 0)%Z; reflexivity. }
  rewrite Hlog. clear Hlog.
  match goal with
  | |- context [emitted (match ema ?x with _ => _ end ?y)] =>
      assert (Hseed : emitted (match ema x with
                               | Some _ => ret tt
                               | None => when (truthy (ema_decay cfg))
                                              (set_ema (Some (params x)))
                               end y) = [])
        by (destruct (ema x); [reflexivity|];
            destruct (truthy (ema_decay cfg)); reflexivity);
      rewrite Hseed; clear Hseed
  end.
  exists (((if encoder_visualizer cfg then [EvVisualizer] else [])
             ++ EvForward
             :: (match fst lh with Some _ => [EvBackward] | None => [] end)
             ++ (if (i mod stride_apply cfg =? 0)%Z
                 then [EvOptimizerStep; EvZeroGrad; EvStepEma] else []))
            ++ (if (r' =? 0)%Z then [lg] else [])).
  split.
  - cbn [app]. rewrite ?app_nil_r. f_equal. apply app_assoc.
  - unfold batch_body_ok, count, lg.
    destruct (encoder_visualizer cfg), (fst lh),
      (i mod stride_apply cfg =? 0)%Z, (r' =? 0)%Z;
      cbn; repeat split; reflexivity.
Qed.

Lemma train_batches_trace n epoch scenes : forall i acc st acc',
  value (train_batches cfg n epoch i scenes acc st) = inr acc' ->
  loop_trace (stride_apply cfg) i (length scenes)
             (emitted (train_batches cfg n epoch i scenes acc st)).
Proof.
  induction scenes as [|b rest IH]; intros i acc st acc' Hv;
    cbn [train_batches length] in *.
  - constructor.
  - apply bind_success in Hv as (a & Ha & Hv & _ & He).
    rewrite He.
    destruct (train_iteration_trace _ _ _ _ _ _ Ha) as (body & Hb & Hok).
    rewrite Hb. cbn [app]. rewrite <- app_assoc. cbn [app].
    constructor; [exact Hok|].
    apply (IH _ _ _ _ Hv).
Qed.

End StrideApply.

(** ** The events of one batch *)

Lemma after_begin_skip (j : Z) (pre tr : list event) :
  existsb is_batch_begin pre = false ->
  after_begin j (pre ++ tr) = after_begin j tr.
Proof.
  induction pre as [|e pre IH]; cbn [app existsb]; intro H.
  - reflexivity.
  - apply orb_false_iff in H as [He Hpre].
    destruct e; cbn in He; try discriminate He; cbn [after_begin];
      apply IH, Hpre.
Qed.

Lemma until_end_body (body : list event) (i : Z) (rest : list event) :
  existsb is_marker body = false ->
  until_end (body ++ EvBatchEnd i :: rest) = body.
Proof.
  induction body as [|e body IH]; cbn [app existsb]; intro H.
  - reflexivity.
  - apply orb_false_iff in H as [He Hbody].
    destruct e; cbn in He; try discriminate He; cbn [until_end];
      f_equal; apply IH, Hbody.
Qed.

Lemma marker_free_no_begin (body : list event) :
  existsb is_marker body = false -> existsb is_batch_begin body = false.
Proof.
  induction body as [|e body IH]; cbn [existsb]; intro H.
  - reflexivity.
  - apply orb_false_iff in H as [He Hbody].
    unfold is_marker in He. apply orb_false_iff in He as [He _].
    rewrite He. apply IH, Hbody.
Qed.

Lemma loop_trace_batch_events (k i : Z) (n : nat) (tr : list event) :
  loop_trace k i n tr ->
  forall j post,
    (i <= j < i + Z.of_nat n)%Z ->
    batch_body_ok k j (batch_events j (tr ++ post)).
Proof.
  induction 1 as [i | i n body rest Hok Hrest IH]; intros j post Hj.
  - cbn in Hj. lia.
  - unfold batch_events. cbn [app after_begin].
    destruct (i =? j)%Z eqn:Hij.
    + apply Z.eqb_eq in Hij. subst j.
      rewrite <- app_assoc. cbn [app].
      rewrite until_end_body by apply Hok. exact Hok.
    + apply Z.eqb_neq in Hij.
      rewrite <- app_assoc. cbn [app].
      rewrite after_begin_skip by (apply marker_free_no_begin, Hok).
      cbn [after_begin].
      apply (IH j post). lia.
Qed.

Section StrideApplyClaim.

Context {C : Collaborators}.
Variable cfg : config.

Lemma train_begin_no_batch epoch st :
  existsb is_batch_begin (emitted (train_begin cfg epoch st)) = false.
Proof.
  destruct st as [ps o e r]. unfold train_begin.
  destruct r; destruct (fix_batch_norm cfg); destruct (has_lr_scheduler cfg);
    reflexivity.
Qed.

(** [step_ema] touches the shadow only. *)
Lemma step_ema_keeps st :
  params (final (step_ema cfg st)) = params st
  /\ optim (final (step_ema cfg st)) = optim st
  /\ ema_restore_params (final (step_ema cfg st)) = ema_restore_params st.
Proof.
  destruct st as [ps o e r]. unfold step_ema, bind, get. cbn.
  destruct e as [es|]; cbn; [|repeat split].
  destruct (combine ps es); cbn; [repeat split|].
  destruct (ema_decay cfg); repeat split.
Qed.

(** The state after a [train_batch] that returns the losses [r]. *)
Lemma train_batch_final d tgt mt ag st r :
  value (train_batch cfg d tgt mt ag st) = inr r ->
  let backed := match fst r with
                | Some _ => loss_backward (params st) d tgt (optim st)
                | None => optim st
                end in
  let stepped := optimizer_step backed (params st) in
  let st' := final (train_batch cfg d tgt mt ag st) in
  loss cfg (model_forward (params st) d) tgt = inr r
  /\ ema_restore_params st' = ema_restore_params st
  /\ (ag = false ->
      params st' = params st /\ optim st' = backed /\ ema st' = ema st)
  /\ (ag = true ->
      params st' = snd stepped
      /\ optim st' = optimizer_zero_grad (fst stepped)
      /\ (ema st = None -> ema st' = None)
      /\ (forall es dec,
             ema st = Some es ->
             ema_decay cfg = Some dec ->
             ema st' = Some (ema_updates dec (snd stepped) es))).
Proof.
  intro Hv. cbv zeta. unfold train_batch in Hv |- *.
  bind_step Hv u0 H0.
  assert (Hs0 : final (when (encoder_visualizer cfg) (emit EvVisualizer) st) = st)
    by (destruct (encoder_visualizer cfg); reflexivity).
  rewrite Hs0 in *. clear Hs0.
  bind_step Hv s Hs. injection Hs as <-.
  bind_step Hv u1 H1.
  bind_step Hv r0 Hr0.
  bind_step Hv u2 H2.
  bind_step Hv u3 H3.
  injection Hv as <-.
  assert (Hb : final (match fst r0 with
                      | Some _ => do_backward d tgt
                      | None => ret tt
                      end st)
               = {| params := params st;
                    optim := match fst r0 with
                             | Some _ => loss_backward (params st) d tgt (optim st)
                             | None => optim st
                             end;
                    ema := ema st;
                    ema_restore_params := ema_restore_params st |})
    by (destruct st; destruct (fst r0); reflexivity).
  rewrite Hb in *. clear Hb.
  set (backed := match fst r0 with
                 | Some _ => loss_backward (params st) d tgt (optim st)
                 | None => optim st
                 end) in *.
  split; [exact Hr0|].
  destruct ag; unfold when in H3 |- *.
  - bind_step H3 v1 K1.
    bind_step H3 v2 K2.
    bind_step H3 v3 K3.
    match goal with
    | |- context [step_ema cfg ?s] =>
        change s with {| params := snd (optimizer_step backed (params st));
                         optim := optimizer_zero_grad
                                    (fst (optimizer_step backed (params st)));
                         ema := ema st;
                         ema_restore_params := ema_restore_params st |} in *
    end.
    match goal with
    | |- context [step_ema cfg ?s] =>
        destruct (step_ema_keeps s) as (Kp & Ko & Kr);
        cbn [params optim ema_restore_params] in Kp, Ko, Kr
    end.
    split; [exact Kr|]. split; [discriminate|]. intros _.
    split; [exact Kp|]. split; [exact Ko|]. split.
    + intro He. rewrite He. reflexivity.
    + intros es dec He Hd.
      erewrite step_ema_run; [reflexivity | exact He | exact Hd].
  - rewrite final_ret. cbn [params optim ema ema_restore_params].
    split; [reflexivity|]. split; [|discriminate]. intros _.
    repeat split.
Qed.

(** The state after an iteration that returns: the one its [train_batch]
    left, with the shadow seeded when there was none and a decay is
    configured. *)
Lemma train_iteration_final n epoch i d tgt mt acc st acc' :
  value (train_iteration cfg n epoch i (d, tgt, mt) acc st) = inr acc' ->
  let due := (i mod stride_apply cfg =? 0)%Z in
  let s1 := final (train_batch cfg d tgt mt due st) in
  (exists lh, value (train_batch cfg d tgt mt due st) = inr lh)
  /\ final (train_iteration cfg n epoch i (d, tgt, mt) acc st)
     = match ema s1 with
       | Some _ => s1
       | None => if truthy (ema_decay cfg)
                 then with_ema s1 (Some (params s1)) else s1
       end.
Proof.
  intro Hv. cbv zeta. unfold train_iteration in Hv |- *.
  bind_step Hv u0 H0.
  bind_step Hv r Hr.
  assert (r = (i mod stride_apply cfg)%Z) as ->.
  { unfold py_mod in Hr. destruct (stride_apply cfg =? 0)%Z;
      [discriminate Hr | injection Hr as <-; reflexivity]. }
  bind_step Hv lh Hlh.
  split; [exists lh; exact Hlh|].
  bind_step Hv hs Hhs.
  bind_step Hv r' Hr'.
  bind_step Hv u1 H1.
  set (s1 := final (train_batch cfg d tgt mt
                                (i mod stride_apply cfg =? 0)%Z st)) in *.
  match goal with
  | |- context [final ((if (r' =? 0)%Z then ?m else ret tt) s1)] =>
      assert (Hlog : final ((if (r' =? 0)%Z then m else ret tt) s1) = s1)
        by (destruct (r' =? 0)%Z; reflexivity);
      rewrite Hlog
  end.
  clear. destruct s1 as [ps o [es|] rs]; [reflexivity|].
  cbn [ema]. destruct (truthy (ema_decay cfg)); reflexivity.
Qed.

Lemma train_iteration_unset n epoch i b acc :
  truthy (ema_decay cfg) = false ->
  preserves shadow_unset (train_iteration cfg n epoch i b acc).
Proof.
  intro Ht. unfold train_iteration. rewrite Ht.
  preserve_with ltac:(idtac;
                      lazymatch goal with
                      | |- preserves _ (train_batch _ _ _ _ _) =>
                          apply train_batch_unset
                      | |- preserves _ (when false _) => apply preserves_ret
                      end).
Qed.

Lemma train_batches_unset n epoch scenes : forall i acc,
  truthy (ema_decay cfg) = false ->
  preserves shadow_unset (train_batches cfg n epoch i scenes acc).
Proof.
  induction scenes as [|b rest IH]; intros i acc Ht; cbn [train_batches].
  - apply preserves_ret.
  - apply preserves_bind;
      [apply train_iteration_unset, Ht | intro; apply IH, Ht].
Qed.

Lemma train_unset scenes epoch st :
  truthy (ema_decay cfg) = false ->
  ema (final (train cfg scenes epoch st)) = None.
Proof.
  intro Ht. unfold train.
  destruct (train_begin_final cfg epoch st) as [Hf Hb].
  rewrite (bind_inr _ _ _ Hb). cbn [final].
  assert (H : preserves shadow_unset
                (bind (train_batches cfg (Z.of_nat (length scenes)) epoch 0
                                     scenes (initial_sums cfg))
                      (fun acc => train_end (Z.of_nat (length scenes)) epoch acc))).
  { apply preserves_bind; [apply train_batches_unset, Ht|].
    intro acc. unfold train_end, apply_ema.
    preserve_with ltac:(idtac;
                        lazymatch goal with
                        | |- preserves _ (set_params _) =>
                            intros [? ? ? ?] K; exact K
                        | |- preserves _ (set_ema_restore_params _) =>
                            intros [? ? ? ?] K; exact K
                        end). }
  apply H. unfold shadow_unset. rewrite Hf. reflexivity.
Qed.

(** The calls of a batch of an epoch that returns. *)
Lemma batch_counts (scenes : list batch) (epoch : Z) (st : trainer) (i : Z) :
  value (train cfg scenes epoch st) = inr tt ->
  (0 <= i < Z.of_nat (length scenes))%Z ->
  let evs := batch_events i (emitted (train cfg scenes epoch st)) in
  let due := (i mod stride_apply cfg =? 0)%Z in
  count is_optimizer_step evs = fires due
  /\ count is_zero_grad evs = fires due
  /\ count is_step_ema evs = fires due.
Proof.
  intros Hv Hi. cbn zeta.
  unfold train in Hv |- *.
  apply bind_success in Hv as (u & Hu & Hv & _ & He). rewrite He. clear He.
  apply bind_success in Hv as (acc & Hacc & Hv & _ & He). rewrite He. clear He.
  unfold batch_events.
  rewrite after_begin_skip by apply train_begin_no_batch.
  pose proof (train_batches_trace _ _ _ _ _ _ _ Hacc) as Hloop.
  pose proof (loop_trace_batch_events Hloop
                (emitted (train_end (Z.of_nat (length scenes)) epoch acc
                   (final (train_batches cfg (Z.of_nat (length scenes)) epoch 0
                             scenes (initial_sums cfg)
                             (final (train_begin cfg epoch st))))))
                (j:=i)) as Hok.
  unfold batch_events in Hok.
  destruct Hok as (_ & H1 & H2 & H3); [lia|].
  repeat split; assumption.
Qed.

(** C4. In an epoch of [train] that returns, with the stride [k], the batch
    with index [i] has one optimizer step, one zeroing of the gradients and
    one call of [step_ema] when [i % k == 0], and none of the three when it
    is not.  An iteration that is not due leaves the parameters and the
    shadow as they were and the gradient buffers as the backward pass left
    them.  An iteration that is due leaves the parameters of the optimizer
    step and zeroed buffers, and a shadow that was set has each entry with a
    parameter updated from those parameters.  The call of [step_ema] is an
    update only with a shadow set: batch 0 is always due and its call finds
    none, the shadow being seeded after it, and without a decay no batch
    ever has one. *)
Theorem stride_apply_batches :
  (forall scenes epoch st i,
      value (train cfg scenes epoch st) = inr tt ->
      (0 <= i < Z.of_nat (length scenes))%Z ->
      let evs := batch_events i (emitted (train cfg scenes epoch st)) in
      let due := (i mod stride_apply cfg =? 0)%Z in
      count is_optimizer_step evs = fires due
      /\ count is_zero_grad evs = fires due
      /\ count is_step_ema evs = fires due)
  /\ (forall n epoch i d tgt mt acc st acc',
         value (train_iteration cfg n epoch i (d, tgt, mt) acc st) = inr acc' ->
         let due := (i mod stride_apply cfg =? 0)%Z in
         let st' := final (train_iteration cfg n epoch i (d, tgt, mt) acc st) in
         exists lh,
           loss cfg (model_forward (params st) d) tgt = inr lh
           /\ let backed := match fst lh with
                            | Some _ =>
                                loss_backward (params st) d tgt (optim st)
                            | None => optim st
                            end in
              let stepped := optimizer_step backed (params st) in
              (due = false ->
               params st' = params st
               /\ optim st' = backed
               /\ forall es, ema st = Some es -> ema st' = Some es)
              /\ (due = true ->
                  params st' = snd stepped
                  /\ optim st' = optimizer_zero_grad (fst stepped)
                  /\ forall es dec,
                      ema st = Some es ->
                      ema_decay cfg = Some dec ->
                      ema st' = Some (ema_updates dec (snd stepped) es))
              /\ (ema st = None ->
                  ema st' = if truthy (ema_decay cfg)
                            then Some (params st') else None))
  /\ (forall epoch st d tgt mt rest,
         value (train cfg ((d, tgt, mt) :: rest) epoch st) = inr tt ->
         let st0 := final (train_begin cfg epoch st) in
         (0 mod stride_apply cfg =? 0)%Z = true
         /\ count is_step_ema
                  (batch_events 0 (emitted (train cfg ((d, tgt, mt) :: rest)
                                                  epoch st))) = 1%nat
         /\ ema st0 = None
         /\ ema (final (train_batch cfg d tgt mt true st0)) = None)
  /\ (truthy (ema_decay cfg) = false ->
      forall scenes epoch st, ema (final (train cfg scenes epoch st)) = None).
Proof.
  split; [|split; [|split]].
  - intros scenes epoch st i. apply batch_counts.
  - intros n epoch i d tgt mt acc st acc' Hv. cbv zeta.
    destruct (train_iteration_final _ _ _ _ _ _ _ _ Hv) as ((lh & Hlh) & Hf).
    destruct (train_batch_final _ _ _ _ _ Hlh) as (Hl & _ & Hn & Hd).
    cbv zeta in Hn, Hd.
    set (s1 := final (train_batch cfg d tgt mt
                                  (i mod stride_apply cfg =? 0)%Z st)) in *.
    assert (Hp : params (final (train_iteration cfg n epoch i (d, tgt, mt)
                                                acc st)) = params s1
                 /\ optim (final (train_iteration cfg n epoch i (d, tgt, mt)
                                                  acc st)) = optim s1).
    { rewrite Hf. destruct (ema s1); [split; reflexivity|].
      destruct (truthy (ema_decay cfg)); split; reflexivity. }
    destruct Hp as [Hp Ho].
    exists lh. split; [exact Hl|].
    split; [|split].
    + intro Hdue. destruct (Hn Hdue) as (H1 & H2 & H3).
      split; [congruence|]. split; [congruence|].
      intros es He. assert (K : ema s1 = Some es) by congruence.
      rewrite Hf, K. exact K.
    + intro Hdue. destruct (Hd Hdue) as (H1 & H2 & _ & H4).
      split; [congruence|]. split; [congruence|].
      intros es dec He Hdec. pose proof (H4 es dec He Hdec) as K.
      rewrite Hf, K. exact K.
    + intro He. rewrite Hp.
      assert (Hs1 : ema s1 = None)
        by (apply (train_batch_unset cfg d tgt mt _ (st:=st)); exact He).
      rewrite Hf, Hs1. destruct (truthy (ema_decay cfg)); [reflexivity|].
      exact Hs1.
  - intros epoch st d tgt mt rest Hv. cbv zeta.
    destruct (train_begin_final cfg epoch st) as [Hf _].
    assert (He0 : ema (final (train_begin cfg epoch st)) = None)
      by (rewrite Hf; reflexivity).
    split; [rewrite Zmod_0_l; reflexivity|].
    split.
    + assert (Hi : (0 <= 0 < Z.of_nat (length ((d, tgt, mt) :: rest)))%Z)
        by (cbn [length]; lia).
      destruct (batch_counts _ _ _ Hv Hi) as (_ & _ & H3).
      rewrite H3. rewrite Zmod_0_l. reflexivity.
    + split; [exact He0|].
      apply (train_batch_unset cfg d tgt mt true
                               (st:=final (train_begin cfg epoch st))), He0.
  - intros Ht scenes epoch st. apply train_unset, Ht.
Qed.

End StrideApplyClaim.

(** ** The scheduler at the first batch of a run *)

Lemma before_first_batch_app (pre : list event) (i : Z) (rest : list event) :
  existsb is_batch_begin pre = false ->
  before_first_batch (pre ++ EvBatchBegin i :: rest) = pre.
Proof.
  induction pre as [|e pre IH]; cbn [app existsb]; intro H.
  - reflexivity.
  - apply orb_false_iff in H as [He Hpre].
    destruct e; cbn in He; try discriminate He; cbn [before_first_batch];
      f_equal; apply IH, Hpre.
Qed.

Lemma count_app (p : event -> bool) (l l' : list event) :
  count p (l ++ l') = (count p l + count p l')%nat.
Proof.
  unfold count. rewrite filter_app, length_app. reflexivity.
Qed.

Lemma count_scheduler_steps_repeat (n : nat) :
  count is_scheduler_step (repeat EvSchedulerStep n) = n
  /\ existsb is_batch_begin (repeat EvSchedulerStep n) = false.
Proof.
  induction n as [|n [IH1 IH2]]; split; try reflexivity.
  - unfold count in *. cbn. rewrite IH1. reflexivity.
  - cbn. exact IH2.
Qed.

Lemma py_range_head (a b : Z) :
  (a < b)%Z -> exists tl, py_range a b = a :: tl.
Proof.
  intro H. unfold py_range.
  destruct (Z.to_nat (b - a)) as [|m] eqn:Hm; [lia|].
  cbn [seq map]. rewrite Z.add_0_r. eexists. reflexivity.
Qed.

Section SchedulerAtFirstBatch.

Context {C : Collaborators}.
Variable cfg : config.

(** The events of a bind start with those of its first part. *)
Lemma bind_emitted_prefix A B (m : M A) (f : A -> M B) st :
  exists rest, emitted (bind m f st) = emitted (m st) ++ rest.
Proof.
  unfold bind. destruct (value (m st)); cbn [emitted].
  - exists []. rewrite app_nil_r. reflexivity.
  - eexists. reflexivity.
Qed.

Ltac emitted_prefix r :=
  match goal with
  | |- context [emitted (@bind _ ?A ?B ?m ?f ?s)] =>
      let H := fresh in
      destruct (@bind_emitted_prefix A B m f s) as [r H]; rewrite H; clear H
  end.

Lemma fast_forward_run (n : nat) : forall st,
  has_lr_scheduler cfg = true ->
  value (repeat_m n (when (has_lr_scheduler cfg) do_scheduler_step) st) = inr tt
  /\ emitted (repeat_m n (when (has_lr_scheduler cfg) do_scheduler_step) st)
     = repeat EvSchedulerStep n.
Proof.
  induction n as [|n IH]; intros st Hs; cbn [repeat_m repeat].
  - split; reflexivity.
  - assert (Hstep : value (when (has_lr_scheduler cfg) do_scheduler_step st)
                    = inr tt) by (rewrite Hs; reflexivity).
    rewrite (bind_inr _ _ _ Hstep). cbn [value emitted].
    destruct (IH (final (when (has_lr_scheduler cfg) do_scheduler_step st)) Hs)
      as [Hv He].
    rewrite Hv, He. rewrite Hs. split; reflexivity.
Qed.

Lemma train_begin_scheduler_steps epoch st :
  has_lr_scheduler cfg = true ->
  count is_scheduler_step (emitted (train_begin cfg epoch st)) = 1%nat.
Proof.
  intro Hs. destruct st as [ps o e r]. unfold train_begin. rewrite Hs.
  destruct r; destruct (fix_batch_norm cfg); reflexivity.
Qed.

Lemma train_iteration_starts n epoch i b acc st :
  exists tl,
    emitted (train_iteration cfg n epoch i b acc st) = EvBatchBegin i :: tl.
Proof.
  destruct b as [[d tgt] mt]. unfold train_iteration.
  unfold bind at 1. cbn [emit value final emitted app].
  eexists. reflexivity.
Qed.

(** A [train] on a dataset with batches gets to its first batch. *)
Lemma train_reaches_first_batch b rest epoch st :
  exists tl,
    emitted (train cfg (b :: rest) epoch st)
    = emitted (train_begin cfg epoch st) ++ EvBatchBegin 0 :: tl.
Proof.
  destruct (train_begin_final cfg epoch st) as [_ Hv].
  unfold train. rewrite (bind_inr _ _ _ Hv). cbn [emitted].
  emitted_prefix r1.
  cbn [train_batches].
  emitted_prefix r2.
  destruct (train_iteration_starts (Z.of_nat (length (b :: rest))) epoch 0 b
              (initial_sums cfg) (final (train_begin cfg epoch st)))
    as [r3 H3].
  rewrite H3. cbn [app].
  exists ((r3 ++ r2) ++ r1). rewrite <- !app_assoc. reflexivity.
Qed.

(** C5, as the code has it. [loop] steps the scheduler [start_epoch] times,
    and [train] steps it once more before its batches: when the first batch
    of the run starts the scheduler has made [start_epoch + 1] steps, 6 for
    [start_epoch = 5]. *)
Theorem scheduler_steps_at_first_batch
        (train_scenes val_scenes : list batch) (epochs start_epoch : Z)
        (st : trainer) :
  has_lr_scheduler cfg = true ->
  (start_epoch < epochs)%Z ->
  train_scenes <> [] ->
  let run := loop cfg train_scenes val_scenes epochs start_epoch st in
  let forward := repeat_m (Z.to_nat start_epoch)
                          (when (has_lr_scheduler cfg) do_scheduler_step) st in
  count is_scheduler_step (emitted forward) = Z.to_nat start_epoch
  /\ (exists tl,
         emitted run
         = emitted forward
             ++ emitted (train_begin cfg start_epoch (final forward))
             ++ EvBatchBegin 0 :: tl)
  /\ count is_scheduler_step (before_first_batch (emitted run))
     = S (Z.to_nat start_epoch)
  /\ (start_epoch = 5%Z ->
      count is_scheduler_step (before_first_batch (emitted run)) = 6%nat).
Proof.
  intros Hs Hlt Hne run forward.
  destruct (fast_forward_run (Z.to_nat start_epoch) st Hs) as [Hfv Hfe].
  fold forward in Hfv, Hfe.
  destruct (count_scheduler_steps_repeat (Z.to_nat start_epoch)) as [Hc Hnb].
  destruct (py_range_head Hlt) as [tl Htl].
  destruct train_scenes as [|b rest]; [contradiction|].
  assert (Hrun : exists tl',
             emitted run
             = emitted forward
                 ++ emitted (train_begin cfg start_epoch (final forward))
                 ++ EvBatchBegin 0 :: tl').
  { unfold run, loop. fold forward.
    rewrite (bind_inr _ _ _ Hfv). cbn [emitted]. fold forward.
    rewrite Htl. cbn [for_each].
    emitted_prefix r1.
    emitted_prefix r2.
    destruct (train_reaches_first_batch b rest start_epoch (final forward))
      as [r3 H3].
    rewrite H3.
    exists ((r3 ++ r2) ++ r1). rewrite <- !app_assoc. reflexivity. }
  assert (Hcount : count is_scheduler_step (before_first_batch (emitted run))
                   = S (Z.to_nat start_epoch)).
  { destruct Hrun as [tl' Hrun]. rewrite Hrun.
    rewrite app_assoc.
    rewrite before_first_batch_app.
    - rewrite count_app, Hfe, Hc, (train_begin_scheduler_steps _ _ Hs). lia.
    - rewrite existsb_app, Hfe, Hnb, train_begin_no_batch. reflexivity. }
  split; [rewrite Hfe; exact Hc|].
  split; [exact Hrun|].
  split; [exact Hcount|].
  intro H5. rewrite Hcount, H5. reflexivity.
Qed.

End SchedulerAtFirstBatch.

(** * Further properties of the methods *)

(** ** What the methods call *)

Section Emits.

Context {C : Collaborators}.
Variable p : event -> bool.

Lemma emits_only_ret A (a : A) : emits_only p (ret a).
Proof. intro st. reflexivity. Qed.

Lemma emits_only_lift A (r : result A) : emits_only p (lift r).
Proof. intro st. reflexivity. Qed.

Lemma emits_only_get : emits_only p get.
Proof. intro st. reflexivity. Qed.

Lemma emits_only_put st' : emits_only p (put st').
Proof. intro st. reflexivity. Qed.

Lemma emits_only_emit e : p e = true -> emits_only p (emit e).
Proof. intros H st. cbn. rewrite H. reflexivity. Qed.

Lemma emits_only_bind A B (m : M A) (f : A -> M B) :
  emits_only p m -> (forall a, emits_only p (f a)) -> emits_only p (bind m f).
Proof.
  intros Hm Hf st. unfold bind.
  destruct (value (m st)) as [e|a]; cbn [emitted].
  - apply Hm.
  - rewrite forallb_app, Hm, Hf. reflexivity.
Qed.

Lemma emits_only_when b (m : M unit) :
  emits_only p m -> emits_only p (when b m).
Proof. intro Hm. destruct b; [exact Hm | apply emits_only_ret]. Qed.

Lemma emits_only_repeat_m n (m : M unit) :
  emits_only p m -> emits_only p (repeat_m n m).
Proof.
  intro Hm. induction n as [|n IH]; cbn [repeat_m].
  - apply emits_only_ret.
  - apply emits_only_bind; [exact Hm | intros _; exact IH].
Qed.

Lemma emits_only_for_each A (l : list A) (body : A -> M unit) :
  (forall a, emits_only p (body a)) -> emits_only p (for_each l body).
Proof.
  intro Hb. induction l as [|a l IH]; cbn [for_each].
  - apply emits_only_ret.
  - apply emits_only_bind; [apply Hb | intros _; exact IH].
Qed.

End Emits.

(** Walks through the binds of a method; [leaf] closes the calls, and an
    [emit] is checked against the filter. *)
Ltac emits_with leaf :=
  repeat first
    [ leaf
    | match goal with
      | |- emits_only _ (bind _ _) => apply emits_only_bind; [|intro]
      | |- emits_only _ (when _ _) => apply emits_only_when
      | |- emits_only _ (ret _) => apply emits_only_ret
      | |- emits_only _ (lift _) => apply emits_only_lift
      | |- emits_only _ get => apply emits_only_get
      | |- emits_only _ (put _) => apply emits_only_put
      | |- emits_only _ (emit _) => apply emits_only_emit; reflexivity
      | |- emits_only _ (repeat_m _ _) => apply emits_only_repeat_m
      | |- emits_only _ (for_each _ _) => apply emits_only_for_each; intro
      | |- emits_only _ (match ?x with _ => _ end) => destruct x
      end ].

Ltac no_leaf := fail.

Section Validation.

Context {C : Collaborators}.
Variable cfg : config.

Lemma val_batch_keeps d tgt st0 :
  preserves (fun st => st = st0) (val_batch cfg d tgt).
Proof. unfold val_batch. preserve_with no_leaf. Qed.

Lemma val_batches_keeps scenes st0 : forall acc,
  preserves (fun st => st = st0) (val_batches cfg scenes acc).
Proof.
  induction scenes as [|b rest IH]; intro acc; cbn [val_batches].
  - apply preserves_ret.
  - apply preserves_bind; [|intro; apply IH].
    unfold val_iteration.
    preserve_with ltac:(idtac;
                        lazymatch goal with
                        | |- preserves _ (val_batch _ _ _) =>
                            apply val_batch_keeps
                        end).
Qed.

Lemma val_batch_emits d tgt : emits_only is_val_event (val_batch cfg d tgt).
Proof. unfold val_batch. emits_with no_leaf. Qed.

Lemma val_batches_emits scenes : forall acc,
  emits_only is_val_event (val_batches cfg scenes acc).
Proof.
  induction scenes as [|b rest IH]; intro acc; cbn [val_batches].
  - apply emits_only_ret.
  - apply emits_only_bind; [|intro; apply IH].
    unfold val_iteration.
    emits_with ltac:(idtac;
                     lazymatch goal with
                     | |- emits_only _ (val_batch _ _ _) =>
                         apply val_batch_emits
                     end).
Qed.

Lemma val_final (scenes : list batch) (epoch : Z) (st : trainer) :
  final (val cfg scenes epoch st) = st.
Proof.
  assert (H : preserves (fun s => s = st) (val cfg scenes epoch)).
  { unfold val.
    preserve_with ltac:(idtac;
                        lazymatch goal with
                        | |- preserves _ (val_batches _ _ _) =>
                            apply val_batches_keeps
                        end). }
  apply (H st eq_refl).
Qed.

Lemma val_emits (scenes : list batch) (epoch : Z) :
  emits_only is_val_event (val cfg scenes epoch).
Proof.
  unfold val.
  emits_with ltac:(idtac;
                   lazymatch goal with
                   | |- emits_only _ (val_batches _ _ _) =>
                       apply val_batches_emits
                   end).
Qed.

Lemma val_batch_final d tgt st : final (val_batch cfg d tgt st) = st.
Proof. apply (val_batch_keeps d tgt (st0:=st) eq_refl). Qed.

(** X1. A validation only reads: whether [val] returns or raises, the
    parameters, the optimizer, the shadow and the restore buffer are what they
    were, and all it calls is [model.eval()], the forward passes and the log
    of its summary: no backward pass, no optimizer or scheduler step, no
    checkpoint. *)
Theorem val_only_reads (scenes : list batch) (epoch : Z) (st : trainer) :
  final (val cfg scenes epoch st) = st
  /\ forallb is_val_event (emitted (val cfg scenes epoch st)) = true
  /\ (forall d tgt, final (val_batch cfg d tgt st) = st).
Proof.
  split; [apply val_final|].
  split; [apply val_emits|].
  intros d tgt. apply val_batch_final.
Qed.

End Validation.

(** ** Checkpoints of a run *)

Lemma saved_paths_app (tr tr' : list event) :
  saved_paths (tr ++ tr') = saved_paths tr ++ saved_paths tr'.
Proof.
  induction tr as [|e tr IH]; cbn [app saved_paths].
  - reflexivity.
  - destruct e; cbn [app]; rewrite IH; reflexivity.
Qed.

Lemma saved_paths_none (tr : list event) :
  forallb is_not_save tr = true -> saved_paths tr = [].
Proof.
  induction tr as [|e tr IH]; cbn [forallb saved_paths]; intro H.
  - reflexivity.
  - apply andb_true_iff in H as [He Htr].
    destruct e; try discriminate He; apply IH, Htr.
Qed.

Lemma saved_paths_scheduler_steps (n : nat) :
  saved_paths (repeat EvSchedulerStep n) = [].
Proof. induction n as [|n IH]; [reflexivity | exact IH]. Qed.

Section RunCheckpoints.

Context {C : Collaborators}.
Variable cfg : config.

Lemma setters_silent (p : event -> bool) :
  (forall ps, emits_only p (set_params ps))
  /\ (forall o, emits_only p (set_optim o))
  /\ (forall e, emits_only p (set_ema e))
  /\ (forall r, emits_only p (set_ema_restore_params r)).
Proof. repeat split; intros x st; reflexivity. Qed.

Lemma step_ema_emits (p : event -> bool) : emits_only p (step_ema cfg).
Proof. intro st. rewrite step_ema_silent. reflexivity. Qed.

Ltac not_save_leaf :=
  idtac;
  lazymatch goal with
  | |- emits_only _ (set_params _) => apply setters_silent
  | |- emits_only _ (set_optim _) => apply setters_silent
  | |- emits_only _ (set_ema _) => apply setters_silent
  | |- emits_only _ (set_ema_restore_params _) => apply setters_silent
  | |- emits_only _ (step_ema _) => apply step_ema_emits
  | |- emits_only _ (do_backward _ _) => intro; reflexivity
  | |- emits_only _ do_optimizer_step => intro; reflexivity
  | |- emits_only _ do_zero_grad => intro; reflexivity
  | |- emits_only _ do_scheduler_step => intro; reflexivity
  end.

Lemma train_batch_no_save d tgt mt ag :
  emits_only is_not_save (train_batch cfg d tgt mt ag).
Proof. unfold train_batch. emits_with not_save_leaf. Qed.

Lemma train_batches_no_save n epoch scenes : forall i acc,
  emits_only is_not_save (train_batches cfg n epoch i scenes acc).
Proof.
  induction scenes as [|b rest IH]; intros i acc; cbn [train_batches].
  - apply emits_only_ret.
  - apply emits_only_bind; [|intro; apply IH].
    unfold train_iteration.
    emits_with ltac:(first [ lazymatch goal with
                             | |- emits_only _ (train_batch _ _ _ _ _) =>
                                 apply train_batch_no_save
                             end
                           | not_save_leaf ]).
Qed.

Lemma train_no_save scenes epoch :
  emits_only is_not_save (train cfg scenes epoch).
Proof.
  unfold train, train_begin, train_end, apply_ema, ema_restore.
  emits_with ltac:(first [ lazymatch goal with
                           | |- emits_only _ (train_batches _ _ _ _ _ _) =>
                               apply train_batches_no_save
                           end
                         | not_save_leaf ]).
Qed.

Lemma val_no_save scenes epoch :
  emits_only is_not_save (val cfg scenes epoch).
Proof.
  intro st. pose proof (val_emits cfg scenes epoch st) as H.
  revert H. generalize (emitted (val cfg scenes epoch st)).
  induction l as [|e l IH]; cbn [forallb]; intro H; [reflexivity|].
  apply andb_true_iff in H as [He Hl].
  rewrite (IH Hl), andb_true_r.
  destruct e; try discriminate He; reflexivity.
Qed.

Lemma write_model_keeps epoch fin st :
  final (write_model cfg epoch fin st) = st
  /\ value (write_model cfg epoch fin st) = inr tt
  /\ saved_paths (emitted (write_model cfg epoch fin st))
     = [checkpoint_filename cfg epoch fin]
  /\ In (EvSave (checkpoint_filename cfg epoch fin) epoch (params st))
        (emitted (write_model cfg epoch fin st)).
Proof.
  repeat split; try reflexivity.
  cbn. right. right. right. left. reflexivity.
Qed.

Lemma epoch_body_run
      (train_scenes val_scenes : list batch) (epochs epoch : Z)
      (st : trainer) :
  let body := epoch_body cfg train_scenes val_scenes epochs epoch in
  let trained := final (train cfg train_scenes epoch st) in
  final (body st) = trained
  /\ (value (train cfg train_scenes epoch st) = inr tt ->
      saved_paths (emitted (body st)) = [epoch_checkpoint cfg epochs epoch]
      /\ In (EvSave (epoch_checkpoint cfg epochs epoch) (epoch + 1)
                    (params trained))
            (emitted (body st))
      /\ value (body st) = value (val cfg val_scenes (epoch + 1) trained)).
Proof.
  cbn zeta. unfold epoch_body, epoch_checkpoint.
  set (wm := write_model cfg (epoch + 1) (epoch =? epochs - 1)%Z).
  destruct (write_model_keeps (epoch + 1) (epoch =? epochs - 1)%Z
              (final (train cfg train_scenes epoch st)))
    as (Hwf & Hwv & Hws & Hwi).
  fold wm in Hwf, Hwv, Hws, Hwi.
  destruct (value (train cfg train_scenes epoch st)) as [e|[]] eqn:Ht.
  - rewrite (bind_inl _ _ _ Ht). cbn [final]. split; [reflexivity|].
    discriminate.
  - rewrite (bind_inr _ _ _ Ht). cbn [final emitted value].
    rewrite (bind_inr _ _ _ Hwv). cbn [final emitted value].
    rewrite Hwf.
    pose proof (val_final cfg val_scenes (epoch + 1)
                  (final (train cfg train_scenes epoch st))) as Hvf.
    split; [exact Hvf|]. intros _.
    split; [|split; [|reflexivity]].
    + rewrite !saved_paths_app, Hws.
      rewrite (@saved_paths_none _ (train_no_save train_scenes epoch st)).
      rewrite (@saved_paths_none _ (val_no_save val_scenes (epoch + 1) _)).
      reflexivity.
    + apply in_or_app. right. apply in_or_app. left. exact Hwi.
Qed.

(** X2. One epoch of [loop] leaves the trainer as [train] left it, whether
    the epoch returns or raises: the checkpoint and the validation change
    nothing.  When [train] returns, the epoch writes one checkpoint, named by
    the epoch counted from 1, and what it saves are the parameters that
    [train] left, the ones the validation then runs on. *)
Theorem epoch_checkpoint_after_train
        (train_scenes val_scenes : list batch) (epochs epoch : Z)
        (st : trainer) :
  let body := epoch_body cfg train_scenes val_scenes epochs epoch in
  let trained := final (train cfg train_scenes epoch st) in
  final (body st) = trained
  /\ (value (train cfg train_scenes epoch st) = inr tt ->
      saved_paths (emitted (body st)) = [epoch_checkpoint cfg epochs epoch]
      /\ In (EvSave (epoch_checkpoint cfg epochs epoch) (epoch + 1)
                    (params trained))
            (emitted (body st))
      /\ value (body st) = value (val cfg val_scenes (epoch + 1) trained)).
Proof. apply epoch_body_run. Qed.

Lemma epoch_bodies_saved_paths ts vs epochs (l : list Z) : forall st,
  value (for_each l (epoch_body cfg ts vs epochs) st) = inr tt ->
  saved_paths (emitted (for_each l (epoch_body cfg ts vs epochs) st))
  = map (epoch_checkpoint cfg epochs) l.
Proof.
  induction l as [|e l IH]; intros st Hv; cbn [for_each map] in *.
  - reflexivity.
  - apply bind_success in Hv as (u & Hu & Hv & _ & He).
    rewrite He, saved_paths_app, (IH _ Hv).
    assert (Ht : value (train cfg ts e st) = inr tt).
    { unfold epoch_body in Hu. apply bind_returns in Hu as ([] & Ht & _).
      exact Ht. }
    destruct (epoch_body_run ts vs epochs e st) as [_ Hb].
    destruct (Hb Ht) as (Hs & _). rewrite Hs. reflexivity.
Qed.

Lemma fast_forward_any (b : bool) (n : nat) : forall st,
  value (repeat_m n (when b do_scheduler_step) st) = inr tt
  /\ emitted (repeat_m n (when b do_scheduler_step) st)
     = (if b then repeat EvSchedulerStep n else [])
  /\ same_model st (final (repeat_m n (when b do_scheduler_step) st)).
Proof.
  induction n as [|n IH]; intro st; cbn [repeat_m repeat].
  - destruct b; repeat split; reflexivity.
  - assert (Hstep : value (when b do_scheduler_step st) = inr tt)
      by (destruct b; reflexivity).
    rewrite (bind_inr _ _ _ Hstep). cbn [value emitted final].
    destruct (IH (final (when b do_scheduler_step st))) as (Hv & He & Hp & Hm & Hr).
    rewrite Hv, He.
    split; [reflexivity|]. split.
    + destruct b; reflexivity.
    + unfold same_model. rewrite Hp, Hm, Hr.
      destruct b; destruct st; repeat split; reflexivity.
Qed.

(** X3. A run of [loop] that returns has written one checkpoint per epoch, in
    order: the last epoch, [epochs - 1], goes to [self.out] itself, and every
    epoch before it to [self.out] with the suffix of the epoch counted
    from 1. *)
Theorem loop_checkpoints (train_scenes val_scenes : list batch)
        (epochs start_epoch : Z) (st : trainer) :
  value (loop cfg train_scenes val_scenes epochs start_epoch st) = inr tt ->
  saved_paths (emitted (loop cfg train_scenes val_scenes epochs start_epoch st))
  = map (fun epoch =>
           if (epoch =? epochs - 1)%Z then out cfg
           else (out cfg ++ ".epoch" ++ format_03d (epoch + 1))%string)
        (py_range start_epoch epochs).
Proof.
  intro Hv.
  change (loop cfg train_scenes val_scenes epochs start_epoch)
    with (bind (repeat_m (Z.to_nat start_epoch)
                         (when (has_lr_scheduler cfg) do_scheduler_step))
               (fun _ => for_each (py_range start_epoch epochs)
                                  (epoch_body cfg train_scenes val_scenes epochs)))
    in Hv |- *.
  apply bind_success in Hv as (u & Hu & Hv & _ & He). rewrite He.
  destruct (fast_forward_any (has_lr_scheduler cfg) (Z.to_nat start_epoch) st)
    as (_ & Hfe & _).
  rewrite saved_paths_app, Hfe, (epoch_bodies_saved_paths _ _ _ _ _ Hv).
  assert (Hff : saved_paths (if has_lr_scheduler cfg
                             then repeat EvSchedulerStep (Z.to_nat start_epoch)
                             else []) = []).
  { destruct (has_lr_scheduler cfg);
      [apply saved_paths_scheduler_steps | reflexivity]. }
  rewrite Hff. reflexivity.
Qed.

(** X4. Started at or after its last epoch, [loop] trains nothing, validates
    nothing and writes no checkpoint, not even the final one: it returns
    after the scheduler steps of the fast-forward, with the model as it
    was. *)
Theorem loop_without_epochs (train_scenes val_scenes : list batch)
        (epochs start_epoch : Z) (st : trainer) :
  (epochs <= start_epoch)%Z ->
  let run := loop cfg train_scenes val_scenes epochs start_epoch st in
  value run = inr tt
  /\ emitted run
     = (if has_lr_scheduler cfg
        then repeat EvSchedulerStep (Z.to_nat start_epoch) else [])
  /\ saved_paths (emitted run) = []
  /\ same_model st (final run).
Proof.
  intros Hle run. unfold run, loop.
  assert (Hr : py_range start_epoch epochs = []).
  { unfold py_range. replace (Z.to_nat (epochs - start_epoch)) with 0%nat by lia.
    reflexivity. }
  rewrite Hr. cbn [for_each].
  destruct (fast_forward_any (has_lr_scheduler cfg) (Z.to_nat start_epoch) st)
    as (Hv & He & Hm).
  rewrite (bind_inr _ _ _ Hv). cbn [value emitted final].
  rewrite app_nil_r, He.
  split; [reflexivity|]. split; [reflexivity|]. split; [|exact Hm].
  destruct (has_lr_scheduler cfg);
    [apply saved_paths_scheduler_steps | reflexivity].
Qed.

End RunCheckpoints.

(** ** The exceptions that the code of the trainer raises *)

Section Safe.

Context {C : Collaborators}.
Variable I : trainer -> Prop.
Variable E : exn -> Prop.

Lemma safe_ret A (a : A) : safe I E (ret a).
Proof. intros st H. split; [exact H | exact Logic.I]. Qed.

Lemma safe_emit e : safe I E (emit e).
Proof. intros st H. split; [exact H | exact Logic.I]. Qed.

Lemma safe_get : safe I E get.
Proof. intros st H. split; [exact H | exact Logic.I]. Qed.

Lemma safe_lift A (r : result A) :
  match r with inl e => E e | inr _ => True end -> safe I E (lift r).
Proof. intros Hr st H. split; [exact H | exact Hr]. Qed.

(** The continuation may rely on what the first part is known to return. *)
Lemma safe_bind_val A B (Q : A -> Prop) (m : M A) (f : A -> M B) :
  safe I E m ->
  (forall st a, value (m st) = inr a -> Q a) ->
  (forall a, Q a -> safe I E (f a)) ->
  safe I E (bind m f).
Proof.
  intros Hm HQ Hf st H. unfold bind.
  destruct (Hm st H) as [Hi He].
  destruct (value (m st)) as [e|a] eqn:Hv; cbn [final value].
  - split; assumption.
  - apply (Hf a (HQ st a Hv)), Hi.
Qed.

Lemma safe_bind A B (m : M A) (f : A -> M B) :
  safe I E m -> (forall a, safe I E (f a)) -> safe I E (bind m f).
Proof.
  intros Hm Hf.
  apply (@safe_bind_val A B (fun _ => True) m f Hm);
    [trivial | intros a _; apply Hf].
Qed.

Lemma safe_when b (m : M unit) : safe I E m -> safe I E (when b m).
Proof. intro Hm. destruct b; [exact Hm | apply safe_ret]. Qed.

Lemma safe_repeat_m n (m : M unit) : safe I E m -> safe I E (repeat_m n m).
Proof.
  intro Hm. induction n as [|n IH]; cbn [repeat_m].
  - apply safe_ret.
  - apply safe_bind; [exact Hm | intros _; exact IH].
Qed.

Lemma safe_for_each A (l : list A) (body : A -> M unit) :
  (forall a, safe I E (body a)) -> safe I E (for_each l body).
Proof.
  intro Hb. induction l as [|a l IH]; cbn [for_each].
  - apply safe_ret.
  - apply safe_bind; [apply Hb | intros _; exact IH].
Qed.

End Safe.

Ltac safe_with leaf :=
  repeat first
    [ leaf
    | match goal with
      | |- safe _ _ (bind _ _) => apply safe_bind; [|intro]
      | |- safe _ _ (when _ _) => apply safe_when
      | |- safe _ _ (ret _) => apply safe_ret
      | |- safe _ _ (emit _) => apply safe_emit
      | |- safe _ _ get => apply safe_get
      | |- safe _ _ (repeat_m _ _) => apply safe_repeat_m
      | |- safe _ _ (for_each _ _) => apply safe_for_each; intro
      | |- safe _ _ (match ?x with _ => _ end) => destruct x
      end ].

Lemma add_head_losses_length (hl : list (option Q)) : forall sums s',
  add_head_losses sums hl = inr s' -> length s' = length sums.
Proof.
  induction hl as [|h hl IH]; intros sums s' H; cbn [add_head_losses] in H.
  - injection H as <-. reflexivity.
  - destruct h as [v|], sums as [|s sums]; try discriminate H.
    + destruct (add_head_losses sums hl) as [e|r] eqn:Hr; [discriminate H|].
      injection H as <-. cbn [length]. f_equal. apply (IH _ _ Hr).
    + apply (IH _ _ H).
    + destruct (add_head_losses sums hl) as [e|r] eqn:Hr; [discriminate H|].
      injection H as <-. cbn [length]. f_equal. apply (IH _ _ Hr).
Qed.

Lemma add_head_losses_in_range (hl : list (option Q)) : forall sums,
  length sums = length hl ->
  exists s', add_head_losses sums hl = inr s'.
Proof.
  induction hl as [|h hl IH]; intros sums H; cbn [add_head_losses].
  - eexists. reflexivity.
  - destruct sums as [|s sums]; [discriminate H|].
    injection H as H. destruct (IH sums H) as [r Hr]. rewrite Hr.
    destruct h; eexists; reflexivity.
Qed.

Section RunErrors.

Context {C : Collaborators}.
Variable cfg : config.

(** The exceptions that are allowed: the assertions of [loss] always, a
    division by zero where a divisor of the configuration is zero. *)
Variable E : exn -> Prop.
Hypothesis E_assert : forall a, E (AssertionError a).
Hypothesis E_stride : stride_apply cfg = 0%Z -> E ZeroDivisionError.
Hypothesis E_log : log_interval cfg = 0%Z -> E ZeroDivisionError.

Local Abbreviation I := (shadow_has_decay cfg).

Lemma py_mod_error (i k : Z) :
  (k = 0%Z -> E ZeroDivisionError) ->
  match py_mod i k with inl e => E e | inr _ => True end.
Proof.
  intro H. unfold py_mod. destruct (k =? 0)%Z eqn:Hk; [|exact Logic.I].
  apply H, Z.eqb_eq, Hk.
Qed.

Lemma loss_error outputs targets :
  match loss cfg outputs targets with inl e => E e | inr _ => True end.
Proof.
  unfold loss.
  destruct (negb _); [apply E_assert|].
  destruct (negb _); [apply E_assert | exact Logic.I].
Qed.

Lemma loss_returns_as_many outputs targets r :
  loss cfg outputs targets = inr r -> length (snd r) = length (lambdas cfg).
Proof.
  unfold loss.
  destruct (negb _); [discriminate|].
  destruct (length (lambdas cfg)
            =? length (head_losses_of cfg outputs targets))%nat eqn:Hl;
    cbn [negb]; [|discriminate].
  intro H. injection H as <-. cbn [snd].
  symmetry. apply Nat.eqb_eq, Hl.
Qed.

(** A call that returns and leaves the shadow alone. *)
Lemma keeps_ema_safe A (m : M A) :
  (forall st, ema (final (m st)) = ema st
              /\ exists a, value (m st) = inr a) ->
  safe I E m.
Proof.
  intros Hm st H. destruct (Hm st) as [He [a Ha]].
  split.
  - unfold shadow_has_decay in *. rewrite He. exact H.
  - rewrite Ha. exact Logic.I.
Qed.

Lemma step_ema_safe : safe I E (step_ema cfg).
Proof.
  intros [ps o e r] H. unfold shadow_has_decay in *. cbn in H.
  unfold step_ema, bind, get. cbn.
  destruct e as [es|]; cbn; [|split; [exact H | exact Logic.I]].
  assert (Ht : truthy (ema_decay cfg) = true) by (apply H; discriminate).
  destruct (ema_decay cfg) as [d|]; [|discriminate Ht].
  destruct (combine ps es); cbn; split; trivial.
Qed.

Lemma seed_safe es : safe I E (when (truthy (ema_decay cfg)) (set_ema (Some es))).
Proof.
  intros st H. unfold shadow_has_decay in *.
  destruct (truthy (ema_decay cfg)) eqn:Ht; cbn.
  - split; [reflexivity | exact Logic.I].
  - split; [exact H | exact Logic.I].
Qed.

Lemma set_ema_none_safe : safe I E (set_ema None).
Proof.
  intros st H. unfold shadow_has_decay. cbn.
  split; [intro N; contradiction | exact Logic.I].
Qed.

Ltac error_leaf :=
  idtac;
  lazymatch goal with
  | |- safe _ _ (step_ema _) => apply step_ema_safe
  | |- safe _ _ (when (truthy _) (set_ema (Some _))) => apply seed_safe
  | |- safe _ _ (set_ema None) => apply set_ema_none_safe
  | |- safe _ _ (do_backward _ _) =>
      apply keeps_ema_safe; intros []; split; [reflexivity | eexists; reflexivity]
  | |- safe _ _ do_optimizer_step =>
      apply keeps_ema_safe; intros []; split; [reflexivity | eexists; reflexivity]
  | |- safe _ _ do_zero_grad =>
      apply keeps_ema_safe; intros []; split; [reflexivity | eexists; reflexivity]
  | |- safe _ _ do_scheduler_step =>
      apply keeps_ema_safe; intros []; split; [reflexivity | eexists; reflexivity]
  | |- safe _ _ ema_restore =>
      apply keeps_ema_safe; intros [? ? ? [?|]];
      split; [reflexivity | eexists; reflexivity
             | reflexivity | eexists; reflexivity]
  | |- safe _ _ apply_ema =>
      apply keeps_ema_safe; intros [? ? [?|] ?];
      split; [reflexivity | eexists; reflexivity
             | reflexivity | eexists; reflexivity]
  | |- safe _ _ (lift (loss _ _ _)) => apply safe_lift, loss_error
  | |- safe _ _ (lift (py_mod _ (stride_apply _))) =>
      apply safe_lift, py_mod_error, E_stride
  | |- safe _ _ (lift (py_mod _ (log_interval _))) =>
      apply safe_lift, py_mod_error, E_log
  end.

Lemma train_batch_safe d tgt mt ag : safe I E (train_batch cfg d tgt mt ag).
Proof. unfold train_batch. safe_with error_leaf. Qed.

Lemma train_batch_returns_as_many d tgt mt ag st r :
  value (train_batch cfg d tgt mt ag st) = inr r ->
  length (snd r) = length (lambdas cfg).
Proof.
  intro Hv. unfold train_batch in Hv.
  apply bind_returns in Hv as (u0 & _ & Hv).
  apply bind_returns in Hv as (s & _ & Hv).
  apply bind_returns in Hv as (u1 & _ & Hv).
  apply bind_returns in Hv as (r0 & Hr0 & Hv).
  apply bind_returns in Hv as (u2 & _ & Hv).
  apply bind_returns in Hv as (u3 & _ & Hv).
  cbn in Hv, Hr0. injection Hv as <-.
  apply (loss_returns_as_many _ _ Hr0).
Qed.

Lemma train_iteration_returns_as_many n epoch i b acc st acc' :
  value (train_iteration cfg n epoch i b acc st) = inr acc' ->
  length (snd acc') = length (snd acc).
Proof.
  destruct b as [[d tgt] mt]. intro Hv. unfold train_iteration in Hv.
  apply bind_returns in Hv as (u0 & _ & Hv).
  apply bind_returns in Hv as (r & _ & Hv).
  apply bind_returns in Hv as (lh & _ & Hv).
  apply bind_returns in Hv as (hs & Hhs & Hv).
  apply bind_returns in Hv as (r' & _ & Hv).
  apply bind_returns in Hv as (u1 & _ & Hv).
  apply bind_returns in Hv as (s & _ & Hv).
  apply bind_returns in Hv as (u2 & _ & Hv).
  apply bind_returns in Hv as (u3 & _ & Hv).
  cbn in Hv, Hhs. injection Hv as <-. cbn [snd].
  apply (add_head_losses_length _ _ Hhs).
Qed.

Lemma add_head_losses_error sums hl :
  length sums = length hl ->
  match add_head_losses sums hl with inl e => E e | inr _ => True end.
Proof.
  intro H. destruct (add_head_losses_in_range hl sums H) as [s' Hs].
  rewrite Hs. exact Logic.I.
Qed.

Lemma train_iteration_safe n epoch i b acc :
  length (snd acc) = length (lambdas cfg) ->
  safe I E (train_iteration cfg n epoch i b acc).
Proof.
  intro Hacc. destruct b as [[d tgt] mt]. unfold train_iteration.
  apply safe_bind; [apply safe_emit | intros _].
  apply safe_bind; [error_leaf | intro r].
  apply (@safe_bind_val _ I E _ _
           (fun lh => length (snd lh) = length (lambdas cfg))).
  - apply train_batch_safe.
  - intros st lh Hlh. apply (train_batch_returns_as_many _ _ _ _ _ Hlh).
  - intros lh Hlh.
    apply safe_bind.
    + apply safe_lift, add_head_losses_error. congruence.
    + intro hs. safe_with error_leaf.
Qed.

Lemma train_batches_safe n epoch scenes : forall i acc,
  length (snd acc) = length (lambdas cfg) ->
  safe I E (train_batches cfg n epoch i scenes acc).
Proof.
  induction scenes as [|b rest IH]; intros i acc Hacc; cbn [train_batches].
  - apply safe_ret.
  - apply (@safe_bind_val _ I E _ _
             (fun acc' => length (snd acc') = length (lambdas cfg))).
    + apply train_iteration_safe, Hacc.
    + intros st acc' Hv.
      rewrite (train_iteration_returns_as_many _ _ _ _ _ _ Hv). exact Hacc.
    + intros acc' Hacc'. apply IH, Hacc'.
Qed.

Lemma initial_sums_as_many :
  length (snd (initial_sums cfg)) = length (lambdas cfg).
Proof. unfold initial_sums. cbn [snd]. apply length_map. Qed.

Lemma truediv_all_error ls n :
  (n = 0%Z -> E ZeroDivisionError) ->
  match truediv_all ls n with inl e => E e | inr _ => True end.
Proof.
  intro H. destruct (n =? 0)%Z eqn:Hn.
  - apply Z.eqb_eq in Hn. destruct ls as [|l ls]; [exact Logic.I|].
    cbn [truediv_all]. unfold py_truediv. subst n. cbn. apply H. reflexivity.
  - rewrite truediv_all_nonzero by exact Hn. exact Logic.I.
Qed.

Lemma py_truediv_error x n :
  (n = 0%Z -> E ZeroDivisionError) ->
  match py_truediv x n with inl e => E e | inr _ => True end.
Proof.
  intro H. unfold py_truediv. destruct (n =? 0)%Z eqn:Hn; [|exact Logic.I].
  apply H, Z.eqb_eq, Hn.
Qed.

Lemma n_batches_zero (scenes : list batch) :
  (scenes = [] -> E ZeroDivisionError) ->
  Z.of_nat (length scenes) = 0%Z -> E ZeroDivisionError.
Proof.
  intros H Hn. apply H. destruct scenes; [reflexivity | discriminate Hn].
Qed.

Lemma train_safe scenes epoch :
  (scenes = [] -> E ZeroDivisionError) ->
  safe I E (train cfg scenes epoch).
Proof.
  intro Hs. unfold train, train_begin, train_end.
  safe_with ltac:(first
    [ lazymatch goal with
      | |- safe _ _ (train_batches _ _ _ _ _ _) =>
          apply train_batches_safe, initial_sums_as_many
      | |- safe _ _ (lift (py_truediv _ _)) =>
          apply safe_lift, py_truediv_error, n_batches_zero, Hs
      | |- safe _ _ (lift (truediv_all _ _)) =>
          apply safe_lift, truediv_all_error, n_batches_zero, Hs
      end
    | error_leaf ]).
Qed.

Lemma val_batch_returns_as_many d tgt st r :
  value (val_batch cfg d tgt st) = inr r ->
  length (snd r) = length (lambdas cfg).
Proof.
  intro Hv. unfold val_batch in Hv.
  apply bind_returns in Hv as (s & _ & Hv).
  apply bind_returns in Hv as (u1 & _ & Hv).
  apply bind_returns in Hv as (r0 & Hr0 & Hv).
  cbn in Hv, Hr0. injection Hv as <-.
  apply (loss_returns_as_many _ _ Hr0).
Qed.

Lemma val_iteration_returns_as_many b acc st acc' :
  value (val_iteration cfg b acc st) = inr acc' ->
  length (snd acc') = length (snd acc).
Proof.
  destruct b as [[d tgt] mt]. intro Hv. unfold val_iteration in Hv.
  apply bind_returns in Hv as (lh & _ & Hv).
  apply bind_returns in Hv as (hs & Hhs & Hv).
  cbn in Hv, Hhs. injection Hv as <-. cbn [snd].
  apply (add_head_losses_length _ _ Hhs).
Qed.

Lemma val_batches_safe scenes : forall acc,
  length (snd acc) = length (lambdas cfg) ->
  safe I E (val_batches cfg scenes acc).
Proof.
  induction scenes as [|b rest IH]; intros acc Hacc; cbn [val_batches].
  - apply safe_ret.
  - apply (@safe_bind_val _ I E _ _
             (fun acc' => length (snd acc') = length (lambdas cfg))).
    + destruct b as [[d tgt] mt]. unfold val_iteration.
      apply (@safe_bind_val _ I E _ _
               (fun lh => length (snd lh) = length (lambdas cfg))).
      * unfold val_batch. safe_with error_leaf.
      * intros st lh Hlh. apply (val_batch_returns_as_many _ _ _ Hlh).
      * intros lh Hlh. apply safe_bind.
        -- apply safe_lift, add_head_losses_error. congruence.
        -- intro hs. apply safe_ret.
    + intros st acc' Hv.
      rewrite (val_iteration_returns_as_many _ _ _ Hv). exact Hacc.
    + intros acc' Hacc'. apply IH, Hacc'.
Qed.

Lemma val_safe scenes epoch :
  (scenes = [] -> E ZeroDivisionError) ->
  safe I E (val cfg scenes epoch).
Proof.
  intro Hs. unfold val.
  safe_with ltac:(idtac;
    lazymatch goal with
    | |- safe _ _ (val_batches _ _ _) =>
        apply val_batches_safe, initial_sums_as_many
    | |- safe _ _ (lift (py_truediv _ _)) =>
        apply safe_lift, py_truediv_error, n_batches_zero, Hs
    | |- safe _ _ (lift (truediv_all _ _)) =>
        apply safe_lift, truediv_all_error, n_batches_zero, Hs
    end).
Qed.

Lemma write_model_safe epoch fin : safe I E (write_model cfg epoch fin).
Proof. unfold write_model. safe_with no_leaf. Qed.

Lemma loop_safe train_scenes val_scenes epochs start_epoch :
  (train_scenes = [] -> E ZeroDivisionError) ->
  (val_scenes = [] -> E ZeroDivisionError) ->
  safe I E (loop cfg train_scenes val_scenes epochs start_epoch).
Proof.
  intros Ht Hv. unfold loop.
  safe_with ltac:(first
    [ lazymatch goal with
      | |- safe _ _ (train _ _ _) => apply train_safe, Ht
      | |- safe _ _ (val _ _ _) => apply val_safe, Hv
      | |- safe _ _ (write_model _ _ _) => apply write_model_safe
      end
    | error_leaf ]).
Qed.

End RunErrors.

Section RunErrorClaims.

Context {C : Collaborators}.
Variable cfg : config.

Lemma reachable_shadow_has_decay st :
  reachable cfg st -> shadow_has_decay cfg st.
Proof.
  induction 1 as [ps o | st ps o _ IH | st _ IH | st _ IH | st _ IH
                  | st d tgt mt ag _ IH | st d tgt _ IH | st scenes epoch _ IH
                  | st scenes epoch _ IH | st epoch fin _ IH
                  | st ts vs epochs start _ IH].
  - intro N. contradiction N. reflexivity.
  - exact IH.
  - apply (proj1 (step_ema_safe (fun _ => True) IH)).
  - unfold shadow_has_decay in *. destruct st as [ps o [es|] r]; exact IH.
  - unfold shadow_has_decay in *. destruct st as [ps o e [rs|]]; exact IH.
  - eapply proj1. eapply (@train_batch_safe _ cfg (fun _ => True)); trivial.
  - rewrite val_batch_final. exact IH.
  - eapply proj1. eapply (@train_safe _ cfg (fun _ => True)); trivial.
  - rewrite val_final. exact IH.
  - eapply proj1. eapply (@write_model_safe _ cfg (fun _ => True)); trivial.
  - eapply proj1. eapply (@loop_safe _ cfg (fun _ => True)); trivial.
Qed.

(** X7. In a state a trainer can be in, [step_ema] returns: a shadow is set
    only under a decay that is a number other than zero, so [1.0 - decay] is
    never taken on [None]. *)
Theorem step_ema_returns (st : trainer) :
  reachable cfg st ->
  value (step_ema cfg st) = inr tt
  /\ (ema st <> None ->
      exists d, ema_decay cfg = Some d /\ Qeq_bool d 0 = false).
Proof.
  intro Hr. apply reachable_shadow_has_decay in Hr.
  split.
  - destruct (step_ema_safe (fun _ => False) Hr) as [_ Hv].
    destruct (value (step_ema cfg st)) as [e|[]]; [contradiction | reflexivity].
  - intro Hs. specialize (Hr Hs). unfold truthy in Hr.
    destruct (ema_decay cfg) as [d|]; [|discriminate Hr].
    exists d. split; [reflexivity|].
    destruct (Qeq_bool d 0); [discriminate Hr | reflexivity].
Qed.

End RunErrorClaims.

(** ** The swap at the end of an epoch *)

Section SwapAcrossEpochs.

Context {C : Collaborators}.
Variable cfg : config.

Lemma train_iteration_sets_shadow n epoch i b acc st acc' :
  truthy (ema_decay cfg) = true ->
  value (train_iteration cfg n epoch i b acc st) = inr acc' ->
  ema (final (train_iteration cfg n epoch i b acc st)) <> None.
Proof.
  destruct b as [[d tgt] mt]. intros Ht Hv.
  unfold train_iteration in Hv |- *.
  bind_step Hv u0 H0.
  bind_step Hv r Hr.
  bind_step Hv lh Hlh.
  bind_step Hv hs Hhs.
  bind_step Hv r' Hr'.
  bind_step Hv u1 H1.
  bind_step Hv s Hs. injection Hs as <-.
  bind_step Hv u2 H2.
  bind_step Hv u3 H3.
  match goal with
  | |- ema (final (match ema ?x with _ => _ end ?y)) <> None =>
      destruct (ema x) eqn:Hx; [rewrite final_ret, Hx; discriminate|]
  end.
  rewrite Ht. unfold when. rewrite final_set_ema. cbn. discriminate.
Qed.

Lemma train_batches_set n epoch scenes : forall i acc,
  preserves shadow_set (train_batches cfg n epoch i scenes acc).
Proof.
  induction scenes as [|b rest IH]; intros i acc; cbn [train_batches].
  - apply preserves_ret.
  - apply preserves_bind; [apply train_iteration_set | intro; apply IH].
Qed.

Lemma train_batches_sets_shadow n epoch b rest i acc st acc' :
  truthy (ema_decay cfg) = true ->
  value (train_batches cfg n epoch i (b :: rest) acc st) = inr acc' ->
  ema (final (train_batches cfg n epoch i (b :: rest) acc st)) <> None.
Proof.
  intros Ht Hv. cbn [train_batches] in Hv |- *.
  apply bind_success in Hv as (a & Ha & Hv & Hf & _). rewrite Hf.
  apply train_batches_set.
  apply (train_iteration_sets_shadow _ _ _ _ _ _ Ht Ha).
Qed.

Lemma train_end_final n epoch acc st :
  final (train_end n epoch acc st) = final (apply_ema st).
Proof.
  unfold train_end.
  rewrite (bind_inr _ _ _ (apply_ema_returns st)). cbn [final].
  assert (H : preserves (fun s => s = final (apply_ema st))
                (bind (lift (py_truediv (fst acc) n))
                   (fun l => bind (lift (truediv_all (snd acc) n))
                      (fun hs => emit (EvLog (LogTrainEpoch (epoch + 1)
                                                (round l 5) hs))))))
    by preserve_with no_leaf.
  apply (H _ eq_refl).
Qed.

Lemma train_swaps
      (scenes : list batch) (epoch next_epoch : Z) (st : trainer) :
  truthy (ema_decay cfg) = true ->
  scenes <> [] ->
  value (train cfg scenes epoch st) = inr tt ->
  let trained := final (train_batches cfg (Z.of_nat (length scenes)) epoch 0
                                      scenes (initial_sums cfg)
                                      (final (train_begin cfg epoch st))) in
  let swapped := final (train cfg scenes epoch st) in
  exists es,
    ema trained = Some es
    /\ params swapped = copy_into (params trained) es
    /\ ema swapped = Some es
    /\ ema_restore_params swapped = Some (params trained)
    /\ params (final (train_begin cfg next_epoch swapped)) = params trained
    /\ params (final (ema_restore swapped)) = params trained.
Proof.
  intros Ht Hne Hv trained swapped.
  destruct scenes as [|b rest]; [contradiction|].
  assert (Hsw : swapped = final (apply_ema trained)).
  { unfold swapped, trained, train in *.
    apply bind_success in Hv as (u & Hu & Hv & Hf & _). rewrite Hf.
    apply bind_success in Hv as (acc & Hacc & Hv & Hf' & _). rewrite Hf'.
    apply train_end_final. }
  assert (Hset : ema trained <> None).
  { unfold trained, train in *.
    apply bind_returns in Hv as (u & Hu & Hv).
    apply bind_returns in Hv as (acc & Hacc & Hv).
    apply (train_batches_sets_shadow _ _ _ _ _ _ _ Ht Hacc). }
  destruct (ema trained) as [es|] eqn:He; [|contradiction].
  exists es. split; [reflexivity|].
  destruct (train_begin_final cfg next_epoch swapped) as [Hb _].
  rewrite Hb. cbn [params].
  rewrite Hsw. clear Hb Hsw.
  destruct trained as [ps o e r]. cbn in He. subst e. cbn.
  rewrite copy_into_back. repeat split; reflexivity.
Qed.

(** X8. An epoch of [train] that returns, with a decay configured and batches
    in the dataset, ends with the shadow swapped in: the parameters are the
    shadow entries and the restore buffer holds the parameters as the last
    batch left them.  These come back at the start of the next epoch, and
    with [ema_restore]: training goes on from the trained parameters, not
    from their average. *)
Theorem ema_swap_across_epochs
        (scenes : list batch) (epoch next_epoch : Z) (st : trainer) :
  truthy (ema_decay cfg) = true ->
  scenes <> [] ->
  value (train cfg scenes epoch st) = inr tt ->
  let trained := final (train_batches cfg (Z.of_nat (length scenes)) epoch 0
                                      scenes (initial_sums cfg)
                                      (final (train_begin cfg epoch st))) in
  let swapped := final (train cfg scenes epoch st) in
  exists es,
    ema trained = Some es
    /\ params swapped = copy_into (params trained) es
    /\ ema swapped = Some es
    /\ ema_restore_params swapped = Some (params trained)
    /\ params (final (train_begin cfg next_epoch swapped)) = params trained
    /\ params (final (ema_restore swapped)) = params trained.
Proof. apply train_swaps. Qed.

Lemma py_range_snoc (a b : Z) :
  (a < b)%Z -> py_range a b = py_range a (b - 1) ++ [(b - 1)%Z].
Proof.
  intro H. unfold py_range.
  replace (Z.to_nat (b - a)) with (S (Z.to_nat (b - 1 - a))) by lia.
  rewrite seq_S, map_app. cbn [map plus]. f_equal. f_equal. lia.
Qed.

(** A loop that returns has run its last round from the state the rounds
    before it left. *)
Lemma for_each_snoc A (body : A -> M unit) (a : A) (l : list A) : forall st,
  value (for_each (l ++ [a]) body st) = inr tt ->
  value (for_each l body st) = inr tt
  /\ value (body a (final (for_each l body st))) = inr tt
  /\ final (for_each (l ++ [a]) body st)
     = final (body a (final (for_each l body st))).
Proof.
  induction l as [|x l IH]; intros st Hv; cbn [app for_each] in Hv |- *.
  - apply bind_success in Hv as ([] & Hb & _ & Hf & _).
    rewrite Hf. autorewrite with run.
    split; [reflexivity|]. split; [exact Hb | reflexivity].
  - apply bind_success in Hv as ([] & Hb & Hv & Hf & _).
    rewrite Hf. rewrite (bind_inr _ _ _ Hb). cbn [final value].
    apply IH, Hv.
Qed.

(** X14. A run of [loop] that returns after at least one epoch, with a decay
    configured and batches to train on, ends in the state that the [train]
    of its last epoch left, the validation and the checkpoint after it
    changing nothing.  The shadow is swapped in: the parameters of the model
    are the averaged ones, and the restore buffer holds the parameters as the
    last batch of that last epoch left them, which [ema_restore] puts
    back. *)
Theorem loop_ends_swapped (train_scenes val_scenes : list batch)
        (epochs start_epoch : Z) (st : trainer) :
  truthy (ema_decay cfg) = true ->
  train_scenes <> [] ->
  (start_epoch < epochs)%Z ->
  value (loop cfg train_scenes val_scenes epochs start_epoch st) = inr tt ->
  let last := (epochs - 1)%Z in
  let before :=
    final (for_each (py_range start_epoch last)
                    (epoch_body cfg train_scenes val_scenes epochs)
                    (final (repeat_m (Z.to_nat start_epoch)
                                     (when (has_lr_scheduler cfg)
                                           do_scheduler_step) st))) in
  let trained :=
    final (train_batches cfg (Z.of_nat (length train_scenes)) last 0
                         train_scenes (initial_sums cfg)
                         (final (train_begin cfg last before))) in
  let st' := final (loop cfg train_scenes val_scenes epochs start_epoch st) in
  swapped_in st'
  /\ value (train cfg train_scenes last before) = inr tt
  /\ st' = final (train cfg train_scenes last before)
  /\ exists es,
      ema trained = Some es
      /\ ema st' = Some es
      /\ ema_restore_params st' = Some (params trained)
      /\ params st' = copy_into (params trained) es
      /\ params (final (ema_restore st')) = params trained.
Proof.
  intros Ht Hne Hlt Hv. cbv zeta.
  change (loop cfg train_scenes val_scenes epochs start_epoch)
    with (bind (repeat_m (Z.to_nat start_epoch)
                         (when (has_lr_scheduler cfg) do_scheduler_step))
               (fun _ => for_each (py_range start_epoch epochs)
                                  (epoch_body cfg train_scenes val_scenes epochs)))
    in Hv |- *.
  apply bind_success in Hv as (u & Hu & Hv & Hfin & _). rewrite Hfin.
  clear Hfin.
  rewrite (py_range_snoc Hlt) in Hv |- *.
  apply for_each_snoc in Hv as (_ & Hb & Hf). rewrite Hf. clear Hf.
  set (before := final (for_each (py_range start_epoch (epochs - 1))
                          (epoch_body cfg train_scenes val_scenes epochs)
                          (final (repeat_m (Z.to_nat start_epoch)
                                    (when (has_lr_scheduler cfg)
                                          do_scheduler_step) st)))) in *.
  destruct (epoch_body_run cfg train_scenes val_scenes epochs (epochs - 1) before)
    as [Hf _].
  cbv zeta in Hf. rewrite Hf.
  assert (Htr : value (train cfg train_scenes (epochs - 1) before) = inr tt).
  { unfold epoch_body in Hb. apply bind_returns in Hb as ([] & Htr & _).
    exact Htr. }
  destruct (@train_swaps train_scenes (epochs - 1) (epochs - 1) before Ht Hne Htr)
    as (es & Hes & Hp & He & Hr & _ & Hback).
  split; [exists es; eexists; split; [exact He|]; split; [exact Hr | exact Hp]|].
  split; [exact Htr|]. split; [reflexivity|].
  exists es. repeat split; assumption.
Qed.

End SwapAcrossEpochs.

(** ** The names of the checkpoints *)

Lemma read_digits_zeros (k : nat) (s : string) :
  read_digits (zeros k ++ s) = read_digits s.
Proof.
  induction k as [|k IH]; cbn [zeros String.append].
  - reflexivity.
  - unfold read_digits in *. cbn [NilEmpty.uint_of_string].
    destruct (NilEmpty.uint_of_string (zeros k ++ s)) as [u|];
      destruct (NilEmpty.uint_of_string s) as [u'|];
      cbn in *; try discriminate IH; try reflexivity.
    exact IH.
Qed.

Lemma read_digits_decimal (n : Z) :
  read_digits (decimal n) = Some (Z.abs n).
Proof.
  unfold read_digits, decimal.
  set (m := Z.to_N (Z.abs n)).
  assert (Hm : Z.of_N m = Z.abs n) by (unfold m; lia).
  pose proof (DecimalN.Unsigned.of_to m) as Hof.
  destruct (N.to_uint m) as [| | | | | | | | | |] eqn:Hd;
    try (cbn [NilZero.string_of_uint]; rewrite NilEmpty.usu, Hof, Hm;
         reflexivity).
  cbn. cbn in Hof. rewrite <- Hm, <- Hof. reflexivity.
Qed.

Lemma decimal_starts_with_digit (n : Z) :
  exists c r, decimal n = String c r /\ Ascii.eqb c "-" = false.
Proof.
  unfold decimal.
  destruct (N.to_uint (Z.to_N (Z.abs n))); cbn; eexists; eexists;
    split; try reflexivity.
Qed.

Lemma read_epoch_format_03d (n : Z) : read_epoch (format_03d n) = Some n.
Proof.
  unfold format_03d.
  destruct (n <? 0)%Z eqn:Hn.
  - apply Z.ltb_lt in Hn.
    cbn [String.append read_epoch]. cbn [Ascii.eqb Bool.eqb].
    rewrite read_digits_zeros, read_digits_decimal. cbn [option_map].
    f_equal. lia.
  - apply Z.ltb_ge in Hn.
    cbn [String.append String.length].
    assert (Hd : read_digits (zeros (3 - 0 - String.length (decimal n))
                                ++ decimal n) = Some n).
    { rewrite read_digits_zeros, read_digits_decimal. f_equal. lia. }
    destruct (3 - 0 - String.length (decimal n))%nat as [|k];
      cbn [zeros String.append] in *.
    + destruct (decimal_starts_with_digit n) as (c & r & Hc & Hneq).
      rewrite Hc in *. cbn [read_epoch]. rewrite Hneq. exact Hd.
    + cbn [read_epoch]. cbn [Ascii.eqb Bool.eqb]. exact Hd.
Qed.

Lemma append_cancel (s a b : string) :
  (s ++ a)%string = (s ++ b)%string -> a = b.
Proof.
  induction s as [|c s IH]; cbn [String.append]; intro H.
  - exact H.
  - injection H as H. apply IH, H.
Qed.

Lemma append_longer (s : string) (c : ascii) (a : string) :
  (s ++ String c a)%string <> s.
Proof.
  intro H.
  assert (L : String.length (s ++ String c a) = String.length s)
    by (rewrite H; reflexivity).
  clear H. induction s as [|c' s IH]; cbn in L; [discriminate L|].
  apply IH. injection L as L. exact L.
Qed.

Section CheckpointNames.

Context {C : Collaborators}.
Variable cfg : config.

(** X9. The epoch can be read back from the name of its checkpoint: two
    epochs never share a file, and no epoch's file is the file of the final
    checkpoint. *)
Theorem checkpoint_names_distinct :
  (forall n, read_epoch (format_03d n) = Some n)
  /\ (forall e1 e2,
         checkpoint_filename cfg e1 false = checkpoint_filename cfg e2 false ->
         e1 = e2)
  /\ (forall e fin, checkpoint_filename cfg e false
                    <> checkpoint_filename cfg fin true).
Proof.
  split; [exact read_epoch_format_03d|]. split.
  - intros e1 e2 H. unfold checkpoint_filename in H.
    apply append_cancel, append_cancel in H.
    assert (R : read_epoch (format_03d e1) = read_epoch (format_03d e2))
      by (rewrite H; reflexivity).
    rewrite !read_epoch_format_03d in R. injection R as R. exact R.
  - intros e fin. unfold checkpoint_filename. apply append_longer.
Qed.

End CheckpointNames.

(** ** Batches without a loss *)

Lemma add_head_losses_null (hl : list (option Q)) : forall sums,
  all_null hl -> add_head_losses sums hl = inr sums.
Proof.
  unfold all_null.
  induction hl as [|h hl IH]; intros sums H; cbn [add_head_losses].
  - reflexivity.
  - inversion H as [|h' hl' Hh Hhl]; subst.
    destruct sums as [|s sums]; [apply IH, Hhl|].
    rewrite (IH sums Hhl). reflexivity.
Qed.

Section NullBatches.

Context {C : Collaborators}.
Variable cfg : config.

Lemma loss_null_total outputs targets r :
  loss cfg outputs targets = inr r ->
  (fst r = None <-> all_null (snd r)).
Proof.
  unfold loss.
  destruct (negb _); [discriminate|].
  destruct (length (lambdas cfg)
            =? length (head_losses_of cfg outputs targets))%nat eqn:Hl;
    cbn [negb]; [|discriminate].
  apply Nat.eqb_eq in Hl.
  pose proof (loss_values_nil_iff (lambdas cfg) _ Hl) as Hnil.
  intro H. injection H as <-. cbn [fst snd].
  destruct (loss_values (lambdas cfg) (head_losses_of cfg outputs targets))
    as [|v vs].
  - split; [intros _; apply Hnil; reflexivity | reflexivity].
  - split; [discriminate|].
    intro Hall. apply Hnil in Hall. discriminate Hall.
Qed.

(** X10. A [train_batch] that returns has run the backward pass once when
    the total loss is a number and not at all when it is [None]; the total is
    [None] exactly when every sub-loss is, and then the batch adds nothing to
    the running sums of the epoch.  The optimizer step of a batch that is
    due is taken all the same. *)
Theorem null_batch_contributes_nothing d tgt mt ag st r :
  value (train_batch cfg d tgt mt ag st) = inr r ->
  count is_backward (emitted (train_batch cfg d tgt mt ag st))
  = match fst r with Some _ => 1%nat | None => 0%nat end
  /\ count is_optimizer_step (emitted (train_batch cfg d tgt mt ag st))
     = fires ag
  /\ (fst r = None <-> all_null (snd r))
  /\ (fst r = None ->
      forall epoch_loss sums,
        add_loss epoch_loss (fst r) = epoch_loss
        /\ add_head_losses sums (snd r) = inr sums).
Proof.
  intro Hv.
  rewrite (train_batch_trace _ _ _ _ _ _ Hv).
  assert (Hl : exists outputs, loss cfg outputs tgt = inr r).
  { unfold train_batch in Hv.
    apply bind_returns in Hv as (u0 & _ & Hv).
    apply bind_returns in Hv as (s & _ & Hv).
    apply bind_returns in Hv as (u1 & _ & Hv).
    apply bind_returns in Hv as (r0 & Hr0 & Hv).
    apply bind_returns in Hv as (u2 & _ & Hv).
    apply bind_returns in Hv as (u3 & _ & Hv).
    cbn in Hv, Hr0. injection Hv as <-. eexists. exact Hr0. }
  destruct Hl as [outputs Hl].
  pose proof (loss_null_total _ _ Hl) as Hnull.
  split; [|split; [|split; [exact Hnull|]]].
  - unfold count.
    destruct (encoder_visualizer cfg), (fst r), ag; reflexivity.
  - unfold count.
    destruct (encoder_visualizer cfg), (fst r), ag; reflexivity.
  - intros Hnone epoch_loss sums. rewrite Hnone. split; [reflexivity|].
    apply add_head_losses_null, Hnull, Hnone.
Qed.

End NullBatches.

(** ** A swap on top of a swap *)

Section DoubleApply.

Context {C : Collaborators}.

(** X11. [apply_ema()] called again before [ema_restore()] overwrites the
    restore buffer with the values of the shadow: from then on
    [ema_restore()] gives the shadow's values, and the parameters from before
    the first swap are gone. *)
Theorem apply_ema_twice_loses_parameters (st : trainer) (es : list Q) :
  ema st = Some es ->
  let twice := final (apply_ema (final (apply_ema st))) in
  ema_restore_params twice = Some (copy_into (params st) es)
  /\ params twice = copy_into (params st) es
  /\ params (final (ema_restore twice)) = copy_into (params st) es.
Proof.
  destruct st as [ps o e r]. cbn. intros ->. cbn.
  assert (H : copy_into (copy_into ps es) es = copy_into ps es).
  { clear. revert es. induction ps as [|p ps IH]; intros [|e es]; cbn;
      try reflexivity. f_equal. apply IH. }
  rewrite H.
  rewrite (copy_into_same_length (copy_into ps es) (copy_into ps es) eq_refl).
  repeat split; reflexivity.
Qed.

End DoubleApply.

(** ** The mean of a validation *)

Section ValidationMean.

Context {C : Collaborators}.
Variable cfg : config.

Lemma val_iteration_step b acc st acc' :
  value (val_iteration cfg b acc st) = inr acc' ->
  final (val_iteration cfg b acc st) = st
  /\ fst acc' = add_loss (fst acc) (batch_total cfg (params st) b).
Proof.
  destruct b as [[d tgt] mt]. intro Hv. split.
  - assert (H : preserves (fun s => s = st)
                  (val_iteration cfg (d, tgt, mt) acc)).
    { unfold val_iteration.
      preserve_with ltac:(idtac;
                          lazymatch goal with
                          | |- preserves _ (val_batch _ _ _) =>
                              apply val_batch_keeps
                          end). }
    apply (H st eq_refl).
  - unfold val_iteration, val_batch in Hv.
    apply bind_returns in Hv as (lh & Hlh & Hv).
    apply bind_returns in Hlh as (s & Hs & Hlh).
    apply bind_returns in Hlh as (u & _ & Hlh).
    apply bind_returns in Hlh as (r0 & Hr0 & Hlh).
    apply bind_returns in Hv as (hs & _ & Hv).
    cbn in Hs, Hlh, Hr0, Hv. injection Hs as <-. injection Hlh as <-.
    injection Hv as <-. cbn [fst batch_total]. rewrite Hr0. reflexivity.
Qed.

Lemma val_batches_total scenes : forall acc st acc',
  value (val_batches cfg scenes acc st) = inr acc' ->
  fst acc' = fold_left add_loss (map (batch_total cfg (params st)) scenes)
                       (fst acc).
Proof.
  induction scenes as [|b rest IH]; intros acc st acc' Hv;
    cbn [val_batches map fold_left] in *.
  - cbn in Hv. injection Hv as <-. reflexivity.
  - apply bind_returns in Hv as (a & Ha & Hv).
    destruct (val_iteration_step _ _ _ Ha) as [Hf Hs].
    rewrite Hf in Hv. rewrite (IH _ _ _ Hv), Hs. reflexivity.
Qed.

(** X12. The loss that a [val] that returns reports for the epoch is the sum
    of the total losses of its batches, each computed on the parameters the
    validation started with and left out when it is [None], divided by the
    number of batches and rounded to 5 digits. *)
Theorem val_reports_mean (scenes : list batch) (epoch : Z) (st : trainer) :
  value (val cfg scenes epoch st) = inr tt ->
  exists hs,
    In (EvLog (LogValEpoch
                 epoch
                 (round (fold_left add_loss
                                   (map (batch_total cfg (params st)) scenes) 0
                         / inject_Z (Z.of_nat (length scenes))) 5)
                 hs))
       (emitted (val cfg scenes epoch st)).
Proof.
  intro Hv. unfold val in Hv |- *.
  bind_step Hv u0 H0.
  bind_step Hv acc Hacc.
  bind_step Hv l Hl.
  bind_step Hv hs Hhs.
  exists hs.
  rewrite (val_batches_total _ _ _ Hacc) in Hl. cbn [initial_sums fst] in Hl.
  unfold py_truediv in Hl.
  destruct (Z.of_nat (length scenes) =? 0)%Z; [discriminate Hl|].
  injection Hl as <-.
  apply in_or_app. right. apply in_or_app. right.
  apply in_or_app. right. apply in_or_app. right. left. reflexivity.
Qed.

End ValidationMean.

(** ** The scheduler over a run *)

Lemma count_none (p q : event -> bool) (tr : list event) :
  (forall e, q e = true -> p e = false) ->
  forallb q tr = true -> count p tr = 0%nat.
Proof.
  intros Hpq. unfold count.
  induction tr as [|e tr IH]; cbn [forallb filter]; intro H.
  - reflexivity.
  - apply andb_true_iff in H as [He Htr].
    rewrite (Hpq e He). apply IH, Htr.
Qed.

Lemma not_scheduler_step_counts (tr : list event) :
  forallb is_not_scheduler_step tr = true ->
  count is_scheduler_step tr = 0%nat.
Proof.
  apply count_none. intros e He. unfold is_not_scheduler_step in He.
  destruct (is_scheduler_step e); [discriminate He | reflexivity].
Qed.

Section SchedulerOverRun.

Context {C : Collaborators}.
Variable cfg : config.

Ltac quiet_leaf :=
  idtac;
  lazymatch goal with
  | |- emits_only _ (set_params _) => apply setters_silent
  | |- emits_only _ (set_optim _) => apply setters_silent
  | |- emits_only _ (set_ema _) => apply setters_silent
  | |- emits_only _ (set_ema_restore_params _) => apply setters_silent
  | |- emits_only _ (step_ema _) => apply step_ema_emits
  | |- emits_only _ (do_backward _ _) => intro; reflexivity
  | |- emits_only _ do_optimizer_step => intro; reflexivity
  | |- emits_only _ do_zero_grad => intro; reflexivity
  end.

Lemma train_batches_no_scheduler n epoch scenes : forall i acc,
  emits_only is_not_scheduler_step (train_batches cfg n epoch i scenes acc).
Proof.
  induction scenes as [|b rest IH]; intros i acc; cbn [train_batches].
  - apply emits_only_ret.
  - apply emits_only_bind; [|intro; apply IH].
    unfold train_iteration, train_batch.
    emits_with quiet_leaf.
Qed.

Lemma train_end_no_scheduler n epoch acc :
  emits_only is_not_scheduler_step (train_end n epoch acc).
Proof. unfold train_end, apply_ema. emits_with quiet_leaf. Qed.

Lemma val_no_scheduler scenes epoch :
  emits_only is_not_scheduler_step (val cfg scenes epoch).
Proof.
  unfold val.
  assert (Hb : forall acc,
             emits_only is_not_scheduler_step (val_batches cfg scenes acc)).
  { induction scenes as [|b rest IH]; intro acc; cbn [val_batches].
    - apply emits_only_ret.
    - apply emits_only_bind; [|intro; apply IH].
      unfold val_iteration, val_batch. emits_with quiet_leaf. }
  emits_with ltac:(idtac;
                   lazymatch goal with
                   | |- emits_only _ (val_batches _ _ _) => apply Hb
                   end).
Qed.

Lemma write_model_no_scheduler epoch fin :
  emits_only is_not_scheduler_step (write_model cfg epoch fin).
Proof. unfold write_model. emits_with quiet_leaf. Qed.

Lemma train_begin_steps epoch st :
  count is_scheduler_step (emitted (train_begin cfg epoch st))
  = fires (has_lr_scheduler cfg).
Proof.
  destruct st as [ps o e r]. unfold train_begin.
  destruct r; destruct (fix_batch_norm cfg); destruct (has_lr_scheduler cfg);
    reflexivity.
Qed.

(** An epoch of [train] steps the scheduler once, however it ends. *)
Lemma train_steps_once scenes epoch st :
  count is_scheduler_step (emitted (train cfg scenes epoch st))
  = fires (has_lr_scheduler cfg).
Proof.
  destruct (train_begin_final cfg epoch st) as [_ Hv].
  unfold train. rewrite (bind_inr _ _ _ Hv). cbn [emitted].
  rewrite count_app, train_begin_steps.
  rewrite not_scheduler_step_counts; [lia|].
  apply emits_only_bind;
    [apply train_batches_no_scheduler | intro; apply train_end_no_scheduler].
Qed.

Lemma epoch_bodies_steps ts vs epochs (l : list Z) : forall st,
  value (for_each l (epoch_body cfg ts vs epochs) st) = inr tt ->
  count is_scheduler_step
        (emitted (for_each l (epoch_body cfg ts vs epochs) st))
  = (length l * fires (has_lr_scheduler cfg))%nat.
Proof.
  induction l as [|e l IH]; intros st Hv; cbn [for_each length] in *.
  - reflexivity.
  - apply bind_success in Hv as (u & Hu & Hv & _ & He).
    rewrite He, count_app, (IH _ Hv).
    unfold epoch_body in Hu |- *.
    apply bind_success in Hu as (u1 & Ht & Hu & _ & He1). rewrite He1.
    apply bind_success in Hu as (u2 & Hw & Hu & _ & He2). rewrite He2.
    rewrite !count_app, train_steps_once.
    rewrite (@not_scheduler_step_counts _ (write_model_no_scheduler _ _ _)).
    rewrite (@not_scheduler_step_counts _ (val_no_scheduler _ _ _)).
    lia.
Qed.

(** X13. A run of [loop] that returns, with a scheduler, from a start epoch
    between 0 and [epochs], has stepped the scheduler [epochs] times in all:
    a resumed run leaves the schedule where the run from epoch 0 leaves it,
    whatever the size of the datasets. *)
Theorem scheduler_steps_of_run (train_scenes val_scenes : list batch)
        (epochs start_epoch : Z) (st : trainer) :
  has_lr_scheduler cfg = true ->
  (0 <= start_epoch <= epochs)%Z ->
  value (loop cfg train_scenes val_scenes epochs start_epoch st) = inr tt ->
  count is_scheduler_step
        (emitted (loop cfg train_scenes val_scenes epochs start_epoch st))
  = Z.to_nat epochs.
Proof.
  intros Hs Hr Hv.
  change (loop cfg train_scenes val_scenes epochs start_epoch)
    with (bind (repeat_m (Z.to_nat start_epoch)
                         (when (has_lr_scheduler cfg) do_scheduler_step))
               (fun _ => for_each (py_range start_epoch epochs)
                                  (epoch_body cfg train_scenes val_scenes epochs)))
    in Hv |- *.
  apply bind_success in Hv as (u & Hu & Hv & _ & He). rewrite He.
  destruct (fast_forward_run cfg (Z.to_nat start_epoch) st Hs) as [_ Hfe].
  rewrite count_app, Hfe, (epoch_bodies_steps _ _ _ _ _ Hv), Hs.
  destruct (count_scheduler_steps_repeat (Z.to_nat start_epoch)) as [Hc _].
  rewrite Hc. unfold py_range. rewrite length_map, length_seq.
  cbn [fires]. lia.
Qed.

End SchedulerOverRun.

(** ** The calls of the batches of an epoch *)

Lemma batches_trace_batch_events (P : Z -> list event -> Prop) (i : Z)
      (n : nat) (tr : list event) :
  batches_trace P i n tr ->
  forall j post,
    (i <= j < i + Z.of_nat n)%Z ->
    P j (batch_events j (tr ++ post)).
Proof.
  induction 1 as [i | i n body rest Hfree Hok Hrest IH]; intros j post Hj.
  - cbn in Hj. lia.
  - unfold batch_events. cbn [app after_begin].
    destruct (i =? j)%Z eqn:Hij.
    + apply Z.eqb_eq in Hij. subst j.
      rewrite <- app_assoc. cbn [app].
      rewrite until_end_body by exact Hfree. exact Hok.
    + apply Z.eqb_neq in Hij.
      rewrite <- app_assoc. cbn [app].
      rewrite after_begin_skip by (apply marker_free_no_begin, Hfree).
      cbn [after_begin].
      apply (IH j post). lia.
Qed.

Lemma batches_trace_count (P : Z -> list event -> Prop) (p : event -> bool)
      (k : Z) :
  (forall i, p (EvBatchBegin i) = false /\ p (EvBatchEnd i) = false) ->
  (forall j body, P j body -> count p body = fires (j mod k =? 0)%Z) ->
  forall i n tr,
    batches_trace P i n tr -> count p tr = due_batches k i n.
Proof.
  intros Hm HP i n tr H.
  induction H as [i | i n body rest Hfree Hok Hrest IH].
  - reflexivity.
  - change (EvBatchBegin i :: body ++ EvBatchEnd i :: rest)
      with ([EvBatchBegin i] ++ body ++ [EvBatchEnd i] ++ rest).
    rewrite !count_app, IH, (HP _ _ Hok).
    unfold count at 1 2. cbn [filter].
    destruct (Hm i) as [-> ->]. cbn [length due_batches]. lia.
Qed.

Lemma due_batches_closed (k : Z) (n : nat) : forall i,
  (0 < k)%Z -> (0 <= i)%Z ->
  Z.of_nat (due_batches k i n)
  = ((i + Z.of_nat n + k - 1) / k - (i + k - 1) / k)%Z.
Proof.
  induction n as [|n IH]; intros i Hk Hi; cbn [due_batches].
  - replace (i + Z.of_nat 0 + k - 1)%Z with (i + k - 1)%Z by lia. lia.
  - rewrite Nat2Z.inj_add, (IH (i + 1)%Z Hk) by lia.
    replace (i + 1 + Z.of_nat n + k - 1)%Z
      with (i + Z.of_nat (S n) + k - 1)%Z by lia.
    replace (i + 1 + k - 1)%Z with (i + k)%Z by lia.
    assert (Hstep : ((i + k) / k
                     = (i + k - 1) / k
                       + Z.of_nat (fires (i mod k =? 0)%Z))%Z).
    { pose proof (Z.div_mod i k ltac:(lia)) as Hdm.
      pose proof (Z.mod_pos_bound i k Hk) as Hb.
      destruct (i mod k =? 0)%Z eqn:Hm; cbn [fires Z.of_nat].
      - apply Z.eqb_eq in Hm.
        rewrite <- (Z.div_unique (i + k) k (i / k + 1) 0) by lia.
        rewrite <- (Z.div_unique (i + k - 1) k (i / k) (k - 1)) by lia.
        lia.
      - apply Z.eqb_neq in Hm.
        rewrite <- (Z.div_unique (i + k) k (i / k + 1) (i mod k)) by lia.
        rewrite <- (Z.div_unique (i + k - 1) k (i / k + 1) (i mod k - 1))
          by lia.
        lia. }
    lia.
Qed.

Section BatchCalls.

Context {C : Collaborators}.
Variable cfg : config.

Lemma batch_call_list_marker_free n epoch i lh lr :
  existsb is_marker (batch_call_list cfg n epoch i lh lr) = false.
Proof.
  unfold batch_call_list.
  destruct (encoder_visualizer cfg), (fst lh),
    (i mod stride_apply cfg =? 0)%Z, (i mod log_interval cfg =? 0)%Z;
    reflexivity.
Qed.

Lemma batch_call_list_counts n epoch i lh lr :
  count is_optimizer_step (batch_call_list cfg n epoch i lh lr)
  = fires (i mod stride_apply cfg =? 0)%Z
  /\ count is_zero_grad (batch_call_list cfg n epoch i lh lr)
     = fires (i mod stride_apply cfg =? 0)%Z.
Proof.
  unfold batch_call_list, count.
  destruct (encoder_visualizer cfg), (fst lh),
    (i mod stride_apply cfg =? 0)%Z, (i mod log_interval cfg =? 0)%Z;
    split; reflexivity.
Qed.

(** The events of an iteration that returns: the calls of its batch for
    the losses of the forward pass on the parameters it starts from, and the
    rate of the optimizer as [train_batch] leaves it. *)
Lemma train_iteration_call_list n epoch i d tgt mt acc st acc' :
  value (train_iteration cfg n epoch i (d, tgt, mt) acc st) = inr acc' ->
  let o := train_batch cfg d tgt mt (i mod stride_apply cfg =? 0)%Z st in
  exists lh,
    loss cfg (model_forward (params st) d) tgt = inr lh
    /\ value o = inr lh
    /\ emitted (train_iteration cfg n epoch i (d, tgt, mt) acc st)
       = EvBatchBegin i
           :: batch_call_list cfg n epoch i lh (optimizer_lr (optim (final o)))
           ++ [EvBatchEnd i].
Proof.
  intro Hv. cbv zeta.
  unfold train_iteration in Hv |- *.
  bind_step Hv u0 H0.
  bind_step Hv r Hr.
  assert (r = (i mod stride_apply cfg)%Z) as ->.
  { unfold py_mod in Hr. destruct (stride_apply cfg =? 0)%Z;
      [discriminate Hr | injection Hr as <-; reflexivity]. }
  bind_step Hv lh Hlh.
  bind_step Hv hs Hhs.
  bind_step Hv r' Hr'.
  assert (r' = (i mod log_interval cfg)%Z) as ->.
  { unfold py_mod in Hr'. destruct (log_interval cfg =? 0)%Z;
      [discriminate Hr' | injection Hr' as <-; reflexivity]. }
  bind_step Hv u1 H1.
  bind_step Hv s Hs.
  bind_step Hv u2 H2.
  bind_step Hv u3 H3.
  rewrite (train_batch_trace _ _ _ _ _ _ Hlh).
  set (s1 := final (train_batch cfg d tgt mt
                                (i mod stride_apply cfg =? 0)%Z st)) in *.
  exists lh.
  split; [exact (proj1 (train_batch_final _ _ _ _ _ _ Hlh))|].
  split; [exact Hlh|].
  assert (Hlog : emitted ((if (i mod log_interval cfg =? 0)%Z
                           then bind get (fun st0 =>
                                  emit (EvLog (LogTrain epoch i n
                                                 (optimizer_lr (optim st0))
                                                 (option_round 3 (fst lh))
                                                 (map (option_round 3) (snd lh)))))
                           else ret tt) s1)
                 = if (i mod log_interval cfg =? 0)%Z
                   then [EvLog (LogTrain epoch i n (optimizer_lr (optim s1))
                                         (option_round 3 (fst lh))
                                         (map (option_round 3) (snd lh)))]
                   else []).
  { destruct (i mod log_interval cfg =? 0)%Z; reflexivity. }
  rewrite Hlog. clear Hlog.
  match goal with
  | |- context [emitted (match ema ?x with _ => _ end ?y)] =>
      assert (Hseed : emitted (match ema x with
                               | Some _ => ret tt
                               | None => when (truthy (ema_decay cfg))
                                              (set_ema (Some (params x)))
                               end y) = [])
        by (destruct (ema x); [reflexivity|];
            destruct (truthy (ema_decay cfg)); reflexivity);
      rewrite Hseed; clear Hseed
  end.
  unfold batch_call_list. cbn [app]. rewrite ?app_nil_r.
  f_equal. rewrite <- !app_assoc. cbn [app]. rewrite <- !app_assoc.
  reflexivity.
Qed.

Lemma train_iteration_calls n epoch i b acc st acc' :
  value (train_iteration cfg n epoch i b acc st) = inr acc' ->
  exists lh lr,
    emitted (train_iteration cfg n epoch i b acc st)
    = EvBatchBegin i :: batch_call_list cfg n epoch i lh lr ++ [EvBatchEnd i].
Proof.
  destruct b as [[d tgt] mt]. intro Hv.
  destruct (train_iteration_call_list _ _ _ _ _ _ _ _ Hv) as (lh & _ & _ & He).
  exists lh. eexists. exact He.
Qed.

Lemma train_batches_calls n epoch scenes : forall i acc st acc',
  value (train_batches cfg n epoch i scenes acc st) = inr acc' ->
  batches_trace (fun j body =>
                   exists lh lr, body = batch_call_list cfg n epoch j lh lr)
                i (length scenes)
                (emitted (train_batches cfg n epoch i scenes acc st)).
Proof.
  induction scenes as [|b rest IH]; intros i acc st acc' Hv;
    cbn [train_batches length] in *.
  - constructor.
  - apply bind_success in Hv as (a & Ha & Hv & _ & He).
    rewrite He.
    destruct (train_iteration_calls _ _ _ _ _ _ Ha) as (lh & lr & Hb).
    rewrite Hb. cbn [app]. rewrite <- app_assoc. cbn [app].
    constructor.
    + apply batch_call_list_marker_free.
    + exists lh, lr. reflexivity.
    + apply (IH _ _ _ _ Hv).
Qed.

(** The events of a [train] that returns: the preamble, the batches, the
    end. *)
Lemma train_events scenes epoch st :
  value (train cfg scenes epoch st) = inr tt ->
  exists loop_events end_events,
    emitted (train cfg scenes epoch st)
    = emitted (train_begin cfg epoch st) ++ loop_events ++ end_events
    /\ batches_trace (fun j body =>
                        exists lh lr,
                          body = batch_call_list cfg (Z.of_nat (length scenes))
                                                 epoch j lh lr)
                     0 (length scenes) loop_events
    /\ forallb (fun e => negb (is_optimizer_step e || is_zero_grad e
                               || is_marker e)) end_events = true.
Proof.
  intro Hv. unfold train in Hv |- *.
  apply bind_success in Hv as (u & Hu & Hv & _ & He). rewrite He. clear He.
  apply bind_success in Hv as (acc & Hacc & Hv & _ & He). rewrite He. clear He.
  eexists. eexists. split; [reflexivity|]. split.
  - apply (train_batches_calls _ _ _ _ _ _ Hacc).
  - assert (H : emits_only (fun e => negb (is_optimizer_step e || is_zero_grad e
                                           || is_marker e))
                  (train_end (Z.of_nat (length scenes)) epoch acc)).
    { unfold train_end, apply_ema.
      emits_with ltac:(idtac;
                       lazymatch goal with
                       | |- emits_only _ (set_params _) => apply setters_silent
                       | |- emits_only _ (set_ema_restore_params _) =>
                           apply setters_silent
                       end). }
    apply H.
Qed.

(** X16. An iteration of the loop of [train] that returns makes its calls
    in this order: the visualizer if there is one, the forward pass, the
    backward pass when the total of [loss] on the outputs of that forward
    pass is not [None] and only then, on a batch that is due the optimizer
    step, the zeroing of the gradients and the EMA step, and last the log
    record of the batch when its index is a multiple of [log_interval] (so
    for batch 0), with the losses that [train_batch] returned and the rate
    of the optimizer as it left it. *)
Theorem iteration_calls_in_order n epoch i d tgt mt acc st acc' :
  value (train_iteration cfg n epoch i (d, tgt, mt) acc st) = inr acc' ->
  let o := train_batch cfg d tgt mt (i mod stride_apply cfg =? 0)%Z st in
  exists lh,
    loss cfg (model_forward (params st) d) tgt = inr lh
    /\ value o = inr lh
    /\ emitted (train_iteration cfg n epoch i (d, tgt, mt) acc st)
       = EvBatchBegin i
           :: batch_call_list cfg n epoch i lh (optimizer_lr (optim (final o)))
           ++ [EvBatchEnd i].
Proof. apply train_iteration_call_list. Qed.

Lemma train_begin_counts epoch st :
  count is_optimizer_step (emitted (train_begin cfg epoch st)) = 0%nat
  /\ count is_zero_grad (emitted (train_begin cfg epoch st)) = 1%nat
  /\ count is_backward (emitted (train_begin cfg epoch st)) = 0%nat.
Proof.
  destruct st as [ps o e r]. unfold train_begin.
  destruct r; destruct (fix_batch_norm cfg); destruct (has_lr_scheduler cfg);
    repeat split; reflexivity.
Qed.

(** X17. An epoch of [train] that returns, over [n] batches with a stride
    [k] of 1 or more, has stepped the optimizer [ceil(n / k)] times, once for
    each batch index that is a multiple of [k], and has zeroed the gradients
    once more than that, the first time before the first batch. *)
Theorem optimizer_steps_of_epoch (scenes : list batch) (epoch : Z)
        (st : trainer) :
  value (train cfg scenes epoch st) = inr tt ->
  (0 < stride_apply cfg)%Z ->
  let n := Z.of_nat (length scenes) in
  let k := stride_apply cfg in
  Z.of_nat (count is_optimizer_step (emitted (train cfg scenes epoch st)))
  = ((n + k - 1) / k)%Z
  /\ Z.of_nat (count is_zero_grad (emitted (train cfg scenes epoch st)))
     = ((n + k - 1) / k + 1)%Z.
Proof.
  intros Hv Hk n k.
  destruct (train_events _ _ _ Hv) as (le & ee & He & Hl & Hend).
  destruct (train_begin_counts epoch st) as (Hb1 & Hb2 & _).
  assert (Hdue : Z.of_nat (due_batches k 0 (length scenes))
                 = ((n + k - 1) / k)%Z).
  { rewrite due_batches_closed by (unfold k; lia).
    replace (0 + k - 1)%Z with (k - 1)%Z by lia.
    rewrite (Z.div_small (k - 1) k) by (unfold k; lia).
    unfold n.
    replace (0 + Z.of_nat (length scenes) + k - 1)%Z
      with (Z.of_nat (length scenes) + k - 1)%Z by lia.
    lia. }
  assert (Hopt : count is_optimizer_step le
                 = due_batches k 0 (length scenes)).
  { eapply batches_trace_count; [| |exact Hl].
    - intro j. split; reflexivity.
    - intros j body (lh & lr & ->). apply batch_call_list_counts. }
  assert (Hzero : count is_zero_grad le = due_batches k 0 (length scenes)).
  { eapply batches_trace_count; [| |exact Hl].
    - intro j. split; reflexivity.
    - intros j body (lh & lr & ->). apply batch_call_list_counts. }
  assert (Hend1 : count is_optimizer_step ee = 0%nat).
  { eapply count_none; [|exact Hend].
    intros e H. destruct e; try discriminate H; reflexivity. }
  assert (Hend2 : count is_zero_grad ee = 0%nat).
  { eapply count_none; [|exact Hend].
    intros e H. destruct e; try discriminate H; reflexivity. }
  rewrite He, !count_app, Hb1, Hb2, Hopt, Hzero, Hend1, Hend2.
  lia.
Qed.

(** X18. An epoch of [train] over a dataset with batches reaches its first
    batch with the gradients zeroed once and with no backward pass and no
    optimizer step before it: no gradient from before the epoch enters its
    first step. *)
Theorem gradients_zeroed_before_first_batch (scenes : list batch) (epoch : Z)
        (st : trainer) :
  scenes <> [] ->
  let before := before_first_batch (emitted (train cfg scenes epoch st)) in
  before = emitted (train_begin cfg epoch st)
  /\ count is_zero_grad before = 1%nat
  /\ count is_backward before = 0%nat
  /\ count is_optimizer_step before = 0%nat.
Proof.
  intros Hne before. destruct scenes as [|b rest]; [contradiction|].
  destruct (train_reaches_first_batch cfg b rest epoch st) as [tl Htl].
  assert (Hb : before = emitted (train_begin cfg epoch st)).
  { unfold before. rewrite Htl.
    apply before_first_batch_app, train_begin_no_batch. }
  destruct (train_begin_counts epoch st) as (H1 & H2 & H3).
  rewrite Hb. repeat split; assumption.
Qed.

End BatchCalls.

(** * The properties on the small instance *)

Lemma apply_ema_then_restore_is_identity_witness :
  reachable toy_config toy_after_epoch
  /\ params (final (bind apply_ema (fun _ => ema_restore) toy_after_epoch))
     = params toy_after_epoch
  /\ ema_restore_params
       (final (bind apply_ema (fun _ => ema_restore) toy_after_epoch)) = None.
Proof.
  assert (R : reachable toy_config toy_after_epoch)
    by (apply reach_train, reach_init).
  split; [exact R|].
  split; [exact (proj1 (proj2 (apply_ema_then_restore_is_identity R)))
         | exact (proj1 (proj2 (proj2 (apply_ema_then_restore_is_identity R))))].
Defined.

Lemma loss_fails_iff_count_mismatch_witness :
  length (losses toy_config) = length [tt]
  /\ ((exists e, loss toy_config [tt] [tt] = inl e)
      <-> length (head_losses_of toy_config [tt] [tt])
          <> length (lambdas toy_config)).
Proof.
  split; [reflexivity|].
  exact (proj1 (loss_fails_iff_count_mismatch toy_config [tt] [tt] eq_refl)).
Defined.


(** Two target groups for one output and one head: [loss] returns. *)
Lemma loss_surplus_targets_returns :
  length [tt; tt] <> length (model_forward [] tt)
  /\ length [tt; tt] <> length (losses toy_config)
  /\ loss toy_config (model_forward [] tt) [tt; tt]
     = inr (Some (8 # 2), [Some 2; Some 3]).
Proof.
  split; [discriminate|]. split; [discriminate|]. reflexivity.
Defined.

Lemma loss_count_checks_witness :
  length (losses toy_config) <> length [tt; tt]
  /\ loss toy_config [tt; tt] [tt; tt] = inl (AssertionError losses_eq_outputs)
  /\ loss toy_config [tt] [tt; tt]
     = loss toy_config [tt] (firstn (length [tt]) [tt; tt]).
Proof.
  assert (N : length (losses toy_config) <> length [tt; tt]) by discriminate.
  split; [exact N|].
  split; [exact (proj1 (loss_count_checks toy_config [tt; tt] [tt; tt]) N)
         | exact (proj1 (proj2 (loss_count_checks toy_config [tt] [tt; tt])
                               eq_refl))].
Defined.


Lemma toy_exact : exact_arithmetic toy.
Proof. repeat split; intros; reflexivity. Defined.


(** Batch 0 of an epoch is due and calls [step_ema()], but no shadow is
    updated: there is none when [train_batch] starts and none when it is
    over. *)
Lemma first_batch_updates_no_shadow :
  let st0 := final (train_begin toy_config 0 toy_trainer) in
  value (train toy_config toy_scenes 0 toy_trainer) = inr tt
  /\ (0 mod stride_apply toy_config =? 0)%Z = true
  /\ count is_step_ema
           (batch_events 0 (emitted (train toy_config toy_scenes 0 toy_trainer)))
     = 1%nat
  /\ ema st0 = None
  /\ ema (final (train_batch toy_config tt [tt] tt true st0)) = None.
Proof. cbv zeta. repeat split; vm_compute; reflexivity. Qed.

Lemma stride_apply_batches_witness :
  value (train toy_config toy_scenes 0 toy_trainer) = inr tt
  /\ (0 <= 2 < Z.of_nat (length toy_scenes))%Z
  /\ count is_step_ema
           (batch_events 2 (emitted (train toy_config toy_scenes 0 toy_trainer)))
     = fires (2 mod stride_apply toy_config =? 0)%Z
  /\ ema (final (train_iteration toy_config 3 0 2 toy_batch (0, [0; 0])
                                 toy_with_shadow))
     = Some (ema_updates (1 # 10) [1 - 1; 5 - 1] [0; 0]).
Proof.
  assert (V : value (train toy_config toy_scenes 0 toy_trainer) = inr tt)
    by (vm_compute; reflexivity).
  assert (I : (0 <= 2 < Z.of_nat (length toy_scenes))%Z)
    by (vm_compute; split; [discriminate | reflexivity]).
  assert (W : exists acc',
             value (train_iteration toy_config 3 0 2 toy_batch (0, [0; 0])
                                    toy_with_shadow) = inr acc')
    by (eexists; vm_compute; reflexivity).
  destruct W as [acc' W].
  split; [exact V|]. split; [exact I|]. split.
  - exact (proj2 (proj2 (proj1 (stride_apply_batches toy_config)
                               toy_scenes 0%Z toy_trainer 2%Z V I))).
  - destruct (proj1 (proj2 (stride_apply_batches toy_config))
                    3%Z 0%Z 2%Z tt [tt] tt (0, [0; 0]) toy_with_shadow acc' W)
      as (lh & Hl & _ & Hd & _).
    injection Hl as <-.
    exact (proj2 (proj2 (Hd eq_refl)) [0; 0] (1 # 10) eq_refl eq_refl).
Defined.

(** A run from epoch 5: six scheduler steps come before the first batch. *)
Lemma scheduler_six_steps_at_first_batch :
  has_lr_scheduler toy_config = true
  /\ count is_scheduler_step
           (before_first_batch
              (emitted (loop toy_config [toy_batch] [toy_batch] 6 5 toy_trainer)))
     <> 5%nat.
Proof.
  split; [reflexivity|]. vm_compute. discriminate.
Defined.

Lemma scheduler_steps_at_first_batch_witness :
  has_lr_scheduler toy_config = true
  /\ (5 < 6)%Z
  /\ [toy_batch] <> []
  /\ count is_scheduler_step
           (before_first_batch
              (emitted (loop toy_config [toy_batch] [toy_batch] 6 5 toy_trainer)))
     = 6%nat.
Proof.
  assert (N : [toy_batch] <> []) by discriminate.
  split; [reflexivity|]. split; [reflexivity|]. split; [exact N|].
  exact (proj2 (proj2 (proj2
           (@scheduler_steps_at_first_batch toy toy_config [toy_batch]
              [toy_batch] 6 5 toy_trainer eq_refl eq_refl N))) eq_refl).
Defined.

Lemma ema_seeded_after_first_batch_witness :
  truthy (ema_decay toy_config) = true
  /\ ema (final (train_begin toy_config 1 toy_after_epoch)) = None
  /\ ema (final (train_batch toy_config tt [tt] tt true
                             (final (train_begin toy_config 1 toy_after_epoch))))
     = None.
Proof.
  split; [reflexivity|].
  pose proof (ema_seeded_after_first_batch toy_config toy_after_epoch 1
                tt [tt] tt [] eq_refl) as H.
  cbv zeta in H.
  split; [exact (proj1 (proj2 (proj2 H)))
         | exact (proj1 (proj2 (proj2 (proj2 (proj2 (proj2 H))))) true)].
Defined.

Lemma epoch_summary_needs_batches_witness :
  value (train toy_config [] 0 toy_trainer) = inl ZeroDivisionError
  /\ value (val toy_config [] 0 toy_trainer) = inl ZeroDivisionError
  /\ value (val toy_config [toy_batch] 1 toy_trainer) = inr tt.
Proof.
  pose proof (epoch_summary_needs_batches toy_config) as (T & V & _ & W).
  split; [exact (proj1 (T toy_trainer 0%Z))|].
  split; [exact (proj1 (V toy_trainer 0%Z))|].
  assert (N : [toy_batch] <> []) by discriminate.
  exact (proj1 (W [toy_batch] 1%Z toy_trainer
                  ((8 # 2)%Q, [(0 + 2)%Q; (0 + 3)%Q]) N eq_refl)).
Defined.

Lemma epoch_checkpoint_after_train_witness :
  value (train toy_config [toy_batch] 0 toy_trainer) = inr tt
  /\ saved_paths (emitted (epoch_body toy_config [toy_batch] [toy_batch] 2 0
                                      toy_trainer))
     = [epoch_checkpoint toy_config 2 0].
Proof.
  assert (V : value (train toy_config [toy_batch] 0 toy_trainer) = inr tt)
    by (vm_compute; reflexivity).
  split; [exact V|].
  exact (proj1 (proj2 (@epoch_checkpoint_after_train toy toy_config
                         [toy_batch] [toy_batch] 2 0 toy_trainer) V)).
Defined.

Lemma loop_checkpoints_witness :
  value (loop toy_config [toy_batch] [toy_batch] 2 0 toy_trainer) = inr tt
  /\ saved_paths (emitted (loop toy_config [toy_batch] [toy_batch] 2 0
                                toy_trainer))
     = ["model.pkl.epoch001"; "model.pkl"]%string.
Proof.
  assert (V : value (loop toy_config [toy_batch] [toy_batch] 2 0 toy_trainer)
              = inr tt) by (vm_compute; reflexivity).
  split; [exact V|].
  exact (@loop_checkpoints toy toy_config [toy_batch] [toy_batch] 2 0
           toy_trainer V).
Defined.

Lemma loop_without_epochs_witness :
  (2 <= 5)%Z
  /\ saved_paths (emitted (loop toy_config [toy_batch] [toy_batch] 2 5
                                toy_trainer)) = [].
Proof.
  assert (L : (2 <= 5)%Z) by discriminate.
  split; [exact L|].
  exact (proj1 (proj2 (proj2 (@loop_without_epochs toy toy_config [toy_batch]
                                [toy_batch] 2 5 toy_trainer L)))).
Defined.

Lemma step_ema_returns_witness :
  reachable toy_config toy_after_epoch
  /\ value (step_ema toy_config toy_after_epoch) = inr tt.
Proof.
  assert (R : reachable toy_config toy_after_epoch)
    by (apply reach_train, reach_init).
  split; [exact R|].
  exact (proj1 (@step_ema_returns toy toy_config toy_after_epoch R)).
Defined.

Lemma ema_swap_across_epochs_witness :
  truthy (ema_decay toy_config) = true
  /\ toy_scenes <> []
  /\ value (train toy_config toy_scenes 0 toy_trainer) = inr tt
  /\ exists es,
      ema (final (train_batches toy_config (Z.of_nat (length toy_scenes)) 0 0
                                toy_scenes (initial_sums toy_config)
                                (final (train_begin toy_config 0 toy_trainer))))
      = Some es.
Proof.
  assert (N : toy_scenes <> []) by discriminate.
  assert (V : value (train toy_config toy_scenes 0 toy_trainer) = inr tt)
    by (vm_compute; reflexivity).
  split; [reflexivity|]. split; [exact N|]. split; [exact V|].
  destruct (@ema_swap_across_epochs toy toy_config toy_scenes 0 1 toy_trainer
              eq_refl N V) as (es & H & _).
  exists es. exact H.
Defined.

Lemma checkpoint_names_distinct_witness :
  read_epoch (format_03d 7) = Some 7%Z
  /\ checkpoint_filename toy_config 7 false
     <> checkpoint_filename toy_config 7 true.
Proof.
  split; [exact (proj1 (@checkpoint_names_distinct toy toy_config) 7%Z)
         | exact (proj2 (proj2 (@checkpoint_names_distinct toy toy_config))
                        7%Z 7%Z)].
Defined.

Lemma null_batch_contributes_nothing_witness :
  value (train_batch toy_null_config tt [tt] tt true toy_trainer)
  = inr (None, [None; None])
  /\ count is_backward
           (emitted (train_batch toy_null_config tt [tt] tt true toy_trainer))
     = 0%nat.
Proof.
  assert (V : value (train_batch toy_null_config tt [tt] tt true toy_trainer)
              = inr (None, [None; None])) by reflexivity.
  split; [exact V|].
  exact (proj1 (@null_batch_contributes_nothing toy toy_null_config tt [tt] tt
                  true toy_trainer (None, [None; None]) V)).
Defined.

Lemma apply_ema_twice_loses_parameters_witness :
  ema toy_with_shadow = Some [0; 0]
  /\ params (final (ema_restore
                      (final (apply_ema (final (apply_ema toy_with_shadow))))))
     = copy_into (params toy_with_shadow) [0; 0].
Proof.
  split; [reflexivity|].
  exact (proj2 (proj2 (@apply_ema_twice_loses_parameters toy toy_with_shadow
                         [0; 0] eq_refl))).
Defined.

Lemma val_reports_mean_witness :
  value (val toy_config [toy_batch; toy_batch] 1 toy_trainer) = inr tt
  /\ exists hs,
      In (EvLog (LogValEpoch
                   1
                   (round (fold_left add_loss
                                     (map (batch_total toy_config
                                                       (params toy_trainer))
                                          [toy_batch; toy_batch]) 0
                           / inject_Z (Z.of_nat (length [toy_batch; toy_batch])))
                          5)
                   hs))
         (emitted (val toy_config [toy_batch; toy_batch] 1 toy_trainer)).
Proof.
  assert (V : value (val toy_config [toy_batch; toy_batch] 1 toy_trainer)
              = inr tt) by (vm_compute; reflexivity).
  split; [exact V|].
  exact (@val_reports_mean toy toy_config [toy_batch; toy_batch] 1
           toy_trainer V).
Defined.

Lemma scheduler_steps_of_run_witness :
  has_lr_scheduler toy_config = true
  /\ (0 <= 1 <= 3)%Z
  /\ value (loop toy_config [toy_batch] [toy_batch] 3 1 toy_trainer) = inr tt
  /\ count is_scheduler_step
           (emitted (loop toy_config [toy_batch] [toy_batch] 3 1 toy_trainer))
     = Z.to_nat 3.
Proof.
  assert (R : (0 <= 1 <= 3)%Z) by (split; discriminate).
  assert (V : value (loop toy_config [toy_batch] [toy_batch] 3 1 toy_trainer)
              = inr tt) by (vm_compute; reflexivity).
  split; [reflexivity|]. split; [exact R|]. split; [exact V|].
  exact (@scheduler_steps_of_run toy toy_config [toy_batch] [toy_batch] 3 1
           toy_trainer eq_refl R V).
Defined.

Lemma loop_ends_swapped_witness :
  truthy (ema_decay toy_config) = true
  /\ [toy_batch] <> []
  /\ (0 < 2)%Z
  /\ value (loop toy_config [toy_batch] [toy_batch] 2 0 toy_trainer) = inr tt
  /\ swapped_in (final (loop toy_config [toy_batch] [toy_batch] 2 0
                             toy_trainer)).
Proof.
  assert (N : [toy_batch] <> []) by discriminate.
  assert (V : value (loop toy_config [toy_batch] [toy_batch] 2 0 toy_trainer)
              = inr tt) by (vm_compute; reflexivity).
  split; [reflexivity|]. split; [exact N|]. split; [reflexivity|].
  split; [exact V|].
  exact (proj1 (@loop_ends_swapped toy toy_config [toy_batch] [toy_batch] 2 0
                  toy_trainer eq_refl N eq_refl V)).
Defined.

Lemma iteration_calls_in_order_witness :
  let st0 := final (train_begin toy_config 0 toy_trainer) in
  (exists acc',
      value (train_iteration toy_config 3 0 0 toy_batch (0, [0; 0]) st0)
      = inr acc')
  /\ exists lh,
      loss toy_config (model_forward (params st0) tt) [tt] = inr lh
      /\ value (train_batch toy_config tt [tt] tt
                            (0 mod stride_apply toy_config =? 0)%Z st0) = inr lh
      /\ emitted (train_iteration toy_config 3 0 0 toy_batch (0, [0; 0]) st0)
         = EvBatchBegin 0
             :: batch_call_list
                  toy_config 3 0 0 lh
                  (optimizer_lr
                     (optim (final (train_batch
                                      toy_config tt [tt] tt
                                      (0 mod stride_apply toy_config =? 0)%Z
                                      st0))))
             ++ [EvBatchEnd 0].
Proof.
  cbv zeta.
  assert (W : exists acc',
             value (train_iteration toy_config 3 0 0 toy_batch (0, [0; 0])
                      (final (train_begin toy_config 0 toy_trainer)))
             = inr acc')
    by (eexists; vm_compute; reflexivity).
  split; [exact W|].
  destruct W as [acc' W].
  exact (iteration_calls_in_order toy_config 3 0 0 tt [tt] tt (0, [0; 0])
                                  (final (train_begin toy_config 0 toy_trainer))
                                  W).
Defined.

Lemma optimizer_steps_of_epoch_witness :
  value (train toy_config toy_scenes 0 toy_trainer) = inr tt
  /\ (0 < stride_apply toy_config)%Z
  /\ Z.of_nat (count is_optimizer_step
                     (emitted (train toy_config toy_scenes 0 toy_trainer)))
     = ((Z.of_nat (length toy_scenes) + stride_apply toy_config - 1)
        / stride_apply toy_config)%Z.
Proof.
  assert (V : value (train toy_config toy_scenes 0 toy_trainer) = inr tt)
    by (vm_compute; reflexivity).
  assert (K : (0 < stride_apply toy_config)%Z) by reflexivity.
  split; [exact V|]. split; [exact K|].
  exact (proj1 (@optimizer_steps_of_epoch toy toy_config toy_scenes 0
                  toy_trainer V K)).
Defined.

Lemma gradients_zeroed_before_first_batch_witness :
  toy_scenes <> []
  /\ count is_zero_grad
           (before_first_batch
              (emitted (train toy_config toy_scenes 0 toy_trainer))) = 1%nat.
Proof.
  assert (N : toy_scenes <> []) by discriminate.
  split; [exact N|].
  exact (proj1 (proj2 (@gradients_zeroed_before_first_batch toy toy_config
                         toy_scenes 0 toy_trainer N))).
Defined.
